(** * Answer post-processing utilities of the requirements answer tool

    A shallow embedding of the utility functions of
    [requirements-answer-tool/frontend/script.js]:
    [getConfidenceClass], [getFuzzyClass], [separateCommentAndAnswer]
    and [formatSourcesForExcel], together with the part of the
    ECMAScript regular-expression semantics those functions rely on.

    JavaScript strings are sequences of UTF-16 code units and are modelled
    as [list N]; JavaScript numbers are IEEE-754 binary64 values and are
    modelled by the primitive floats. *)

From Stdlib Require Import List NArith ZArith Arith Bool String Ascii Lia Floats.
Import ListNotations.

#[local] Set Warnings "-inexact-float".

(** ** Strings *)

Module JsString.

Definition jsstring := list N.

(** Decoding of the UTF-8 bytes of a source literal into UTF-16 code units.
    Ill-formed input cannot occur in the literals of the script; a stray byte
    is copied unchanged. *)
Fixpoint utf16_of_utf8 (bs : list N) : jsstring :=
  match bs with
  | [] => []
  | b0 :: t0 =>
    if (b0 <? 128)%N then b0 :: utf16_of_utf8 t0
    else match t0 with
    | [] => [b0]
    | b1 :: t1 =>
      if (b0 <? 224)%N
      then ((b0 mod 32) * 64 + b1 mod 64)%N :: utf16_of_utf8 t1
      else match t1 with
      | [] => [b0; b1]
      | b2 :: t2 =>
        if (b0 <? 240)%N
        then ((b0 mod 16) * 4096 + (b1 mod 64) * 64 + b2 mod 64)%N
               :: utf16_of_utf8 t2
        else match t2 with
        | [] => [b0; b1; b2]
        | b3 :: t3 =>
          let cp := ((b0 mod 8) * 262144 + (b1 mod 64) * 4096
                     + (b2 mod 64) * 64 + b3 mod 64 - 65536)%N in
          (55296 + cp / 1024)%N :: (56320 + cp mod 1024)%N
            :: utf16_of_utf8 t3
        end
      end
    end
  end.

(** The JavaScript string denoted by a source literal. *)
Definition js (s : string) : jsstring :=
  utf16_of_utf8 (map N_of_ascii (list_ascii_of_string s)).

Definition ch (a : ascii) : N := N_of_ascii a.

(** WhiteSpace and LineTerminator of ECMA-262; their union is what
    [String.prototype.trim] removes and what the class [\s] matches. *)
Definition isWhiteSpace (c : N) : bool :=
  ((c =? 9) || (c =? 11) || (c =? 12) || (c =? 32) || (c =? 160)
   || (c =? 5760) || ((8192 <=? c) && (c <=? 8202)) || (c =? 8239)
   || (c =? 8287) || (c =? 12288) || (c =? 65279))%N.

Definition isLineTerminator (c : N) : bool :=
  ((c =? 10) || (c =? 13) || (c =? 8232) || (c =? 8233))%N.

Definition isSpace (c : N) : bool := isWhiteSpace c || isLineTerminator c.

Fixpoint trimStart (s : jsstring) : jsstring :=
  match s with
  | [] => []
  | c :: s' => if isSpace c then trimStart s' else s
  end.

Definition trimEnd (s : jsstring) : jsstring := rev (trimStart (rev s)).

(** [String.prototype.trim] *)
Definition trim (s : jsstring) : jsstring := trimEnd (trimStart s).

(** [Array.prototype.join] on an array of strings *)
Fixpoint join (sep : jsstring) (l : list jsstring) : jsstring :=
  match l with
  | [] => []
  | [x] => x
  | x :: l' => x ++ sep ++ join sep l'
  end.

(** [String.prototype.substring(0, n)] *)
Definition substring0 (n : nat) (s : jsstring) : jsstring := firstn n s.

(** A string is truthy when it is not empty; [undefined] is falsy. *)
Definition truthy (v : option jsstring) : bool :=
  match v with
  | Some (_ :: _) => true
  | _ => false
  end.

End JsString.
Import JsString.

(** ** Regular expressions

    The fragment of the ECMAScript pattern language used by the script, with
    the backtracking semantics of ECMA-262 written in continuation-passing
    style: a matcher takes the continuation that matches the rest of the
    pattern and returns the first successful final state, if any.

    Quantifiers [*] and [*?] are only applied to single-character atoms in
    the script, and the syntax reflects this. *)

Module Regex.

Inductive atom :=
| ALit (c : N)     (* a pattern character *)
| ADot             (* . *)
| ASpace.          (* \s *)

Inductive regex :=
| REmpty
| RBol                           (* ^ *)
| RAtom (a : atom)
| RCat (r1 r2 : regex)
| RAlt (r1 r2 : regex)           (* r1|r2 *)
| ROpt (r : regex)               (* r? *)
| RStar (a : atom)               (* a* *)
| RLazyStar (a : atom)           (* a*? *)
| RGroup (n : nat) (r : regex).  (* the n-th capturing group *)

Record flags := { dotAll : bool; ignoreCase : bool; global : bool }.

Record pattern := { source : regex; flag : flags }.

(** Canonicalize of ECMA-262 (non-unicode mode), restricted to what the
    script needs: every pattern character of an ignore-case pattern of the
    script is ASCII, and canonicalization never maps a code unit above 127
    into the ASCII range, so comparing after upper-casing a-z decides the
    match. *)
Definition canonicalize (c : N) : N :=
  if ((97 <=? c) && (c <=? 122))%N then (c - 32)%N else c.

Definition atom_ok (f : flags) (a : atom) (c : N) : bool :=
  match a with
  | ALit x => if ignoreCase f then (canonicalize c =? canonicalize x)%N
              else (c =? x)%N
  | ADot => dotAll f || negb (isLineTerminator c)
  | ASpace => isSpace c
  end.

(** The matcher state: the index reached in the input, the input from this
    index on, and the captures made so far (latest first). *)
Record mstate := { pos : nat; rest : jsstring; caps : list (nat * jsstring) }.

Definition cont := mstate -> option mstate.

Definition orElse (a b : option mstate) : option mstate :=
  match a with
  | Some x => Some x
  | None => b
  end.

Fixpoint star_greedy (ok : N -> bool) (k : cont) (p : nat)
    (cs : list (nat * jsstring)) (s : jsstring) : option mstate :=
  match s with
  | c :: s' =>
    if ok c
    then orElse (star_greedy ok k (S p) cs s')
                (k {| pos := p; rest := s; caps := cs |})
    else k {| pos := p; rest := s; caps := cs |}
  | [] => k {| pos := p; rest := []; caps := cs |}
  end.

Fixpoint star_lazy (ok : N -> bool) (k : cont) (p : nat)
    (cs : list (nat * jsstring)) (s : jsstring) : option mstate :=
  orElse (k {| pos := p; rest := s; caps := cs |})
    match s with
    | c :: s' => if ok c then star_lazy ok k (S p) cs s' else None
    | [] => None
    end.

Fixpoint m (f : flags) (r : regex) (k : cont) (st : mstate) : option mstate :=
  match r with
  | REmpty => k st
  | RBol => if pos st =? 0 then k st else None
  | RAtom a =>
    match rest st with
    | c :: s' =>
      if atom_ok f a c
      then k {| pos := S (pos st); rest := s'; caps := caps st |}
      else None
    | [] => None
    end
  | RCat r1 r2 => m f r1 (m f r2 k) st
  | RAlt r1 r2 => orElse (m f r1 k st) (m f r2 k st)
  | ROpt r =>
    orElse (m f r (fun st' => if pos st' =? pos st then None else k st') st)
           (k st)
  | RStar a => star_greedy (atom_ok f a) k (pos st) (caps st) (rest st)
  | RLazyStar a => star_lazy (atom_ok f a) k (pos st) (caps st) (rest st)
  | RGroup n r =>
    m f r (fun st' =>
             k {| pos := pos st'; rest := rest st';
                  caps := (n, firstn (pos st' - pos st) (rest st))
                            :: caps st' |}) st
  end.

(** One match attempt at index [p], where [s] is the input from [p] on. *)
Definition match_at (pt : pattern) (p : nat) (s : jsstring) : option mstate :=
  m (flag pt) (source pt) Some {| pos := p; rest := s; caps := [] |}.

(** The value of a capture: [None] is [undefined]. *)
Fixpoint lookup (n : nat) (cs : list (nat * jsstring)) : option jsstring :=
  match cs with
  | [] => None
  | (i, v) :: cs' => if i =? n then Some v else lookup n cs'
  end.

Definition capture (n : nat) (e : mstate) : option jsstring :=
  lookup n (caps e).

(** RegExpBuiltinExec for a pattern that is neither global nor sticky: the
    match is attempted at index 0, 1, ... up to the length of the input. *)
Fixpoint search (pt : pattern) (p : nat) (s : jsstring) : option mstate :=
  match match_at pt p s with
  | Some e => Some e
  | None =>
    match s with
    | [] => None
    | _ :: s' => search pt (S p) s'
    end
  end.

(** [String.prototype.match] with a non-global pattern. *)
Definition str_match (pt : pattern) (s : jsstring) : option mstate :=
  search pt 0 s.

(** [String.prototype.replace] with a global pattern: [skip] counts the
    code units of the current match still to be dropped, [p] is the index
    of the head of [s]. After an empty match the search resumes one code
    unit further. *)
Fixpoint replace_from (pt : pattern) (repl : mstate -> jsstring)
    (skip p : nat) (s : jsstring) {struct s} : jsstring :=
  match skip with
  | S j =>
    match s with
    | [] => []
    | _ :: s' => replace_from pt repl j (S p) s'
    end
  | O =>
    match match_at pt p s with
    | Some e =>
      repl e ++
      match pos e - p with
      | O =>
        match s with
        | [] => []
        | c :: s' => c :: replace_from pt repl 0 (S p) s'
        end
      | S j =>
        match s with
        | [] => []
        | _ :: s' => replace_from pt repl j (S p) s'
        end
      end
    | None =>
      match s with
      | [] => []
      | c :: s' => c :: replace_from pt repl 0 (S p) s'
      end
    end
  end.

Definition replace (pt : pattern) (repl : mstate -> jsstring)
    (s : jsstring) : jsstring :=
  replace_from pt repl 0 0 s.

(** The replacement templates of the script: [''] and ['$1']. *)
Definition subst_empty (e : mstate) : jsstring := [].

Definition subst_group1 (e : mstate) : jsstring :=
  match capture 1 e with
  | Some v => v
  | None => []
  end.

(** A run of pattern characters. *)
Fixpoint rlit (s : jsstring) : regex :=
  match s with
  | [] => REmpty
  | c :: s' => RCat (RAtom (ALit c)) (rlit s')
  end.

Fixpoint rseq (l : list regex) : regex :=
  match l with
  | [] => REmpty
  | [r] => r
  | r :: l' => RCat r (rseq l')
  end.

End Regex.
Import Regex.

(** ** Confidence bands *)

Module Bands.

Definition getConfidenceClass (score : float) : jsstring :=
  if (0.7 <=? score)%float then js "high"
  else if (0.4 <=? score)%float then js "medium"
  else js "low".

Definition getFuzzyClass (score : float) : jsstring :=
  if (0.8 <=? score)%float then js "high"
  else if (0.6 <=? score)%float then js "medium"
  else js "low".

End Bands.

(** ** The answer/comment splitter *)

Module Splitter.

Definition fl_s : flags :=
  {| dotAll := true; ignoreCase := false; global := false |}.
Definition fl_si : flags :=
  {| dotAll := true; ignoreCase := true; global := false |}.
Definition fl_g : flags :=
  {| dotAll := false; ignoreCase := false; global := true |}.

Definition lit_char (a : ascii) : regex := RAtom (ALit (ch a)).

(** A commentary pattern with prefix [P]: the anchor [^], group 1 holding
    [P.*?(?:\.|:)], then [\s*], then group 2 holding the greedy [.*]. *)
Definition preamble (p : regex) : regex :=
  rseq [RBol;
        RGroup 1 (rseq [p; RLazyStar ADot; RAlt (lit_char ".") (lit_char ":")]);
        RStar ASpace;
        RGroup 2 (RStar ADot)].

(** A header pattern with label [L]: the anchor [^], then [L\s*:?\s*], then
    group 1 holding the greedy [.*]. *)
Definition header (l : regex) : regex :=
  rseq [RBol; l; RStar ASpace; ROpt (lit_char ":"); RStar ASpace;
        RGroup 1 (RStar ADot)].

(** [W (?:a|b) (?:c )?N] as in [Hier ist (?:die|eine) (?:umfassende )?Antwort] *)
Definition announce (w a b c n : string) : regex :=
  rseq [rlit (js w); rlit (js " "); RAlt (rlit (js a)) (rlit (js b));
        rlit (js " "); ROpt (rlit (js c)); rlit (js n)].

Definition s_ (r : regex) : pattern := {| source := r; flag := fl_s |}.
Definition si_ (r : regex) : pattern := {| source := r; flag := fl_si |}.

Definition commentPatterns : list pattern :=
  [ (* German commentary patterns *)
    s_ (preamble (rlit (js "Basierend auf")));
    s_ (preamble (rlit (js "Aufgrund")));
    s_ (preamble (rlit (js "Laut")));
    s_ (preamble (rlit (js "Gemäß")));
    s_ (preamble (rlit (js "Entsprechend")));
    s_ (preamble (rlit (js "Unter Berücksichtigung")));
    s_ (preamble (rlit (js "Nach")));
    s_ (preamble (rlit (js "Anhand")));
    s_ (preamble (rlit (js "Durch")));
    s_ (preamble (rlit (js "Mit Blick auf")));
    (* English commentary patterns (legacy support) *)
    s_ (preamble (rlit (js "Based on")));
    s_ (preamble (rlit (js "According to")));
    s_ (preamble (rlit (js "From the historical data")));
    s_ (preamble (rlit (js "Our previous experience shows")));
    s_ (preamble (rlit (js "The sources indicate")));
    s_ (preamble (rlit (js "Looking at similar projects")));
    (* German AI response patterns *)
    si_ (preamble (announce "Hier ist" "die" "eine" "umfassende " "Antwort"));
    si_ (preamble
           (announce "Hier finden Sie" "die" "eine" "umfassende " "Antwort"));
    si_ (preamble
           (announce "Ich erstelle" "eine" "die" "umfassende " "Antwort"));
    si_ (preamble (announce "Dies ist" "die" "eine" "umfassende " "Antwort"));
    si_ (preamble (rlit (js "Folgende Antwort")));
    (* English AI response patterns (legacy support) *)
    si_ (preamble (announce "Here is" "the" "a" "comprehensive " "answer"));
    si_ (preamble (announce "Here's" "the" "a" "comprehensive " "answer"));
    si_ (preamble (announce "I'll provide" "a" "the" "comprehensive " "answer"));
    si_ (preamble (announce "This is" "the" "a" "comprehensive " "answer"));
    (* German markdown formatting *)
    s_ (header (rlit (js "**Antwort**")));
    s_ (header (rlit (js "**Lösung**")));
    s_ (header (rlit (js "Antwort")));
    s_ (header (rlit (js "Lösung")));
    (* English markdown formatting (legacy support) *)
    s_ (header (rlit (js "**Answer**")));
    s_ (header (rlit (js "**Response**")));
    s_ (header (rlit (js "Answer")));
    s_ (header (rlit (js "Response"))) ].

(** [/\*\*/g] *)
Definition re_stars : pattern :=
  {| source := rlit (js "**"); flag := fl_g |}.

(** [/^\*\*.*?\*\*\s*:?\s*/g] *)
Definition re_head : pattern :=
  {| source := rseq [RBol; rlit (js "**"); RLazyStar ADot; rlit (js "**");
                     RStar ASpace; ROpt (lit_char ":"); RStar ASpace];
     flag := fl_g |}.

(** The global pattern for a bold span: two stars, group 1 holding the lazy
    [.*?], two stars. *)
Definition re_bold : pattern :=
  {| source := rseq [rlit (js "**"); RGroup 1 (RLazyStar ADot);
                     rlit (js "**")];
     flag := fl_g |}.

Record result := { comment : jsstring; answer : jsstring }.

(** The body of the [if (match)] block: the updated [comments] and the new
    [workingText]. [None] is the TypeError raised by calling [trim] on
    [undefined]. *)
Definition on_match (mt : mstate) (comments : list jsstring)
    : option (jsstring * list jsstring) :=
  let comments' :=
    match capture 1 mt with
    | Some m1 =>
      if truthy (Some m1) then
        let cleanComment := trim (replace re_stars subst_empty m1) in
        if truthy (Some cleanComment) && (0 <? List.length cleanComment)
        then comments ++ [cleanComment]
        else comments
      else comments
    | None => comments
    end in
  let workingText :=
    if truthy (capture 2 mt)
    then option_map trim (capture 2 mt)
    else option_map trim (capture 1 mt) in
  option_map (fun w => (w, comments')) workingText.

(** The [for ... of] loop with its [break]. *)
Fixpoint loop (ps : list pattern) (workingText : jsstring)
    (comments : list jsstring) : option (jsstring * list jsstring) :=
  match ps with
  | [] => Some (workingText, comments)
  | p :: ps' =>
    match str_match p workingText with
    | Some mt => on_match mt comments
    | None => loop ps' workingText comments
    end
  end.

(** The clean-up of the working text. *)
Definition cleanUp (workingText : jsstring) : jsstring :=
  trim (replace re_bold subst_group1 (replace re_head subst_empty workingText)).

Definition separateWith (ps : list pattern) (fullAnswer : jsstring)
    : option result :=
  match loop ps fullAnswer [] with
  | Some (workingText, comments) =>
    Some {| comment := join (js " ") comments;
            answer := cleanUp workingText |}
  | None => None
  end.

Definition separateCommentAndAnswer (fullAnswer : jsstring) : option result :=
  separateWith commentPatterns fullAnswer.

End Splitter.

(** ** The source list of the Excel export *)

Module Excel.

Record Source := { question_text : jsstring }.

Fixpoint digits (d : Decimal.uint) : jsstring :=
  match d with
  | Decimal.Nil => []
  | Decimal.D0 d' => 48%N :: digits d'
  | Decimal.D1 d' => 49%N :: digits d'
  | Decimal.D2 d' => 50%N :: digits d'
  | Decimal.D3 d' => 51%N :: digits d'
  | Decimal.D4 d' => 52%N :: digits d'
  | Decimal.D5 d' => 53%N :: digits d'
  | Decimal.D6 d' => 54%N :: digits d'
  | Decimal.D7 d' => 55%N :: digits d'
  | Decimal.D8 d' => 56%N :: digits d'
  | Decimal.D9 d' => 57%N :: digits d'
  end.

(** The decimal string of an array index plus one, as the template literal
    renders it. *)
Definition number_to_string (n : nat) : jsstring := digits (Nat.to_uint n).

(** [Array.prototype.map] with the [(element, index)] callback. *)
Fixpoint map_index {A B : Type} (f : A -> nat -> B) (i : nat) (l : list A)
    : list B :=
  match l with
  | [] => []
  | x :: l' => f x i :: map_index f (S i) l'
  end.

Definition source_entry (src : Source) (index : nat) : jsstring :=
  js "Source " ++ number_to_string (index + 1) ++ js ": "
  ++ substring0 100 (question_text src)
  ++ (if 100 <? List.length (question_text src) then js "..." else js "").

(** [sources] is [None] for [null] or [undefined]. *)
Definition formatSourcesForExcel (sources : option (list Source)) : jsstring :=
  match sources with
  | None => js "Keine Quellen"
  | Some l =>
    if List.length l =? 0 then js "Keine Quellen"
    else join (js " | ") (map_index source_entry 0 l)
  end.

End Excel.

Import Bands Splitter Excel.

(** ** Notions used to state and prove the properties *)

Module Analysis.

(** [String.prototype.startsWith] and [String.prototype.includes] *)
Fixpoint startsWith (needle s : jsstring) : bool :=
  match needle, s with
  | [], _ => true
  | _ :: _, [] => false
  | a :: needle', b :: s' => (b =? a)%N && startsWith needle' s'
  end.

Fixpoint includes (needle s : jsstring) : bool :=
  startsWith needle s
  || match s with
     | [] => false
     | _ :: s' => includes needle s'
     end.

(** A capture list extends another when it only adds bindings in front. *)
Definition extends (cs cs' : list (nat * jsstring)) : Prop :=
  exists l, cs' = l ++ cs.

(** Group [n] takes part in every match of the pattern. *)
Fixpoint binds (n : nat) (r : regex) : bool :=
  match r with
  | RGroup i r' => (i =? n) || binds n r'
  | RCat r1 r2 => binds n r1 || binds n r2
  | RAlt r1 r2 => binds n r1 && binds n r2
  | _ => false
  end.

(** The pattern starts with the anchor [^]. *)
Definition anchored (r : regex) : bool :=
  match r with
  | RCat RBol _ => true
  | _ => false
  end.

(** The pattern character every match has to begin with, when the pattern
    starts with one (after the anchor). *)
Fixpoint first_lit (r : regex) : option N :=
  match r with
  | RAtom (ALit c) => Some c
  | RCat RBol r2 => first_lit r2
  | RCat r1 _ => first_lit r1
  | RGroup _ r' => first_lit r'
  | _ => None
  end.

(** No white space can begin a match of the pattern. *)
Definition space_safe (pt : pattern) : bool :=
  match first_lit (source pt) with
  | Some c =>
    negb (isSpace (if ignoreCase (flag pt) then canonicalize c else c))
  | None => false
  end.

(** The text enclosed by a bold span whose opening marker has just been
    read: the shortest run of code units other than line terminators that is
    followed by the closing marker. The result is this text and the input
    after the closing marker. *)
Fixpoint span (t : jsstring) : option (jsstring * jsstring) :=
  if startsWith (js "**") t then Some ([], skipn 2 t)
  else match t with
       | [] => None
       | c :: t' =>
         if isLineTerminator c then None
         else match span t' with
              | Some (X, r) => Some (c :: X, r)
              | None => None
              end
       end.

Definition closes (t : jsstring) : bool :=
  match span t with
  | Some _ => true
  | None => false
  end.

(** The string starts with a bold span on a single line. *)
Definition opens (s : jsstring) : bool :=
  startsWith (js "**") s && closes (skipn 2 s).

(** Some suffix of the string starts with a bold span on a single line. *)
Fixpoint has_pair (s : jsstring) : bool :=
  opens s
  || match s with
     | [] => false
     | _ :: s' => has_pair s'
     end.

Definition single_line (t : jsstring) : Prop :=
  forallb (fun c => negb (isLineTerminator c)) t = true.

(** The same two notions, spelled out on the text. *)
Definition bold_span_at_head (s : jsstring) : Prop :=
  exists t r, s = js "**" ++ t ++ js "**" ++ r /\ single_line t.

Definition has_bold_span (s : jsstring) : Prop :=
  exists u v, s = u ++ v /\ bold_span_at_head v.

(** What follows a header label: white space, an optional colon, white
    space. *)
Definition drop_colon (s : jsstring) : jsstring :=
  match s with
  | c :: s' => if (c =? 58)%N then s' else s
  | [] => []
  end.

Definition after_label (s : jsstring) : jsstring :=
  trimStart (drop_colon (trimStart s)).


(** The bold-stripping step, resumed at index [p]. *)
Definition unbold (p : nat) (s : jsstring) : jsstring :=
  replace_from re_bold subst_group1 0 p s.

(** The matcher went from the first state to the second by reading input. *)
Definition advances (st st' : mstate) : Prop :=
  exists u, rest st = u ++ rest st' /\ pos st' = pos st + List.length u.

(** The part of the header pattern after the label. *)
Definition label_tail : regex :=
  RCat (RStar ASpace) (RCat (ROpt (lit_char ":")) (RStar ASpace)).

(** The three ways the bold-stripping step proceeds at the head of its
    input: the input is exhausted, the head is copied, or a span is
    unwrapped. *)
Inductive unbold_case (p : nat) (s : jsstring) : Prop :=
| UEnd : s = [] -> unbold p s = [] -> unbold_case p s
| UCopy c s' :
    s = c :: s' -> opens s = false ->
    unbold p s = c :: unbold (S p) s' -> unbold_case p s
| USpan X r :
    startsWith (js "**") s = true -> span (skipn 2 s) = Some (X, r) ->
    unbold p s = X ++ unbold (p + 4 + List.length X) r ->
    unbold_case p s.


Definition double_preamble_example : jsstring :=
  js "Based on A. Based on B. C.".

(** Every match of the expression reads at least one code unit. *)
Fixpoint consuming (r : regex) : bool :=
  match r with
  | RAtom _ => true
  | RCat r1 r2 => consuming r1 || consuming r2
  | RAlt r1 r2 => consuming r1 && consuming r2
  | RGroup _ r' => consuming r'
  | _ => false
  end.

(** The two shapes of the patterns of the library: a commentary pattern
    with some prefix and the flag [s], and a header pattern with a literal
    label that is not empty. *)
Definition commentary_shape (p : pattern) : Prop :=
  exists P, source p = preamble P /\ dotAll (flag p) = true.

Definition header_shape (p : pattern) : Prop :=
  exists L, p = s_ (header (rlit L)) /\ L <> [].

(** [p] is the pattern at which the loop over [ps] breaks on the input [x],
    and [mt] is its match: no pattern in front of [p] matches [x]. *)
Definition first_match (ps : list pattern) (x : jsstring) (p : pattern)
    (mt : mstate) : Prop :=
  exists before after,
    ps = before ++ p :: after
    /\ (forall q, In q before -> str_match q x = None)
    /\ str_match p x = Some mt.

End Analysis.
Import Analysis.

(** ** The cut made by a commentary pattern *)

Module Cutting.

(** The two characters that end a preamble: the full stop and the colon. *)
Definition is_stop (c : N) : bool := ((c =? 46) || (c =? 58))%N.

(** The text up to and including the first full stop or colon, and what
    follows it. *)
Fixpoint cut (t : jsstring) : option (jsstring * jsstring) :=
  match t with
  | [] => None
  | c :: t' =>
    if is_stop c then Some ([c], t')
    else match cut t' with
         | Some (g, r) => Some (c :: g, r)
         | None => None
         end
  end.

End Cutting.
Import Cutting.

(** ** Upper-casing of the letters a to z *)

Module CaseFold.

Definition upper (s : jsstring) : jsstring := map canonicalize s.

Definition upper_state (st : mstate) : mstate :=
  {| pos := pos st;
     rest := upper (rest st);
     caps := map (fun nv => (fst nv, upper (snd nv))) (caps st) |}.

(** Two continuations that agree up to upper-casing. *)
Definition agree (k k' : cont) : Prop :=
  forall st, k' (upper_state st) = option_map upper_state (k st).

End CaseFold.
Import CaseFold.

(** ** The Excel export of the answers *)

Module Workbook.

(** An answer as the server returns it: [answer.answer],
    [answer.confidence_score], [answer.fuzzy_score] and [answer.sources],
    which is [None] when it is [null] or missing. *)
Record Answer := {
  answer : jsstring;
  confidence_score : float;
  fuzzy_score : float;
  sources : option (list Source)
}.

(** A cell of the sheet: a string, or [None] for [undefined]. *)
Definition cell := option jsstring.
Definition row := list cell.

(** What [exportAnswers] does: it warns and returns, or an exception of the
    splitter leaves it, or it writes the workbook and reports success. *)
Inductive outcome :=
| Warned (message type : jsstring)
| Raised
| Exported (excelData : list row) (cols : list nat)
    (sheetName fileName : jsstring) (message type : jsstring).

Section Sheet.

(** [Number.prototype.toFixed(1)] and the value of
    [new Date().toISOString()] are taken as given. *)
Variable toFixed1 : float -> jsstring.
Variable isoNow : jsstring.

(** [s.split('T')[0]]: the part of [s] in front of the first "T". *)
Fixpoint before_T (s : jsstring) : jsstring :=
  match s with
  | [] => []
  | c :: s' => if (c =? 84)%N then [] else c :: before_T s'
  end.

Definition header_row : row :=
  [ Some (js "Frage"); Some (js "Kommentar zur Antwort"); Some (js "Antwort");
    Some (js "Vector Distance Metric (%)");
    Some (js "Text Pattern Match (%)"); Some (js "Quellen") ].

(** The callback of [currentAnswers.forEach]: the rows pushed from index
    [index] on. *)
Fixpoint pushRows (currentQuestions : list jsstring) (index : nat)
    (answers : list Answer) : option (list row) :=
  match answers with
  | [] => Some []
  | a :: answers' =>
    match separateCommentAndAnswer (answer a) with
    | None => None
    | Some r =>
      let sources := formatSourcesForExcel (sources a) in
      match pushRows currentQuestions (S index) answers' with
      | None => None
      | Some rows =>
        Some ([ nth_error currentQuestions index;
                Some (comment r);
                Some (Splitter.answer r);
                Some (toFixed1 (confidence_score a * 100)%float);
                Some (toFixed1 (fuzzy_score a * 100)%float);
                Some sources ] :: rows)
      end
    end
  end.

Definition exportAnswers (currentQuestions : list jsstring)
    (currentAnswers : list Answer) : outcome :=
  if List.length currentAnswers =? 0
  then Warned (js "Keine Antworten zum Exportieren vorhanden") (js "warning")
  else
    match pushRows currentQuestions 0 currentAnswers with
    | None => Raised
    | Some rows =>
      Exported (header_row :: rows) [40; 30; 50; 20; 20; 60]
        (js "Antworten auf Anfragen")
        (js "antworten_" ++ before_T isoNow ++ js ".xlsx")
        (js "Excel-Datei erfolgreich exportiert") (js "success")
    end.

End Sheet.

End Workbook.

(** ** The request handlers

    [generateSingleAnswer] and [generateAllAnswers] are asynchronous handlers
    around one [fetch]. A run is modelled by the list of the effects it
    performs, in order, given what the server answers and whether the
    display function raises. The elements the script looks up in the
    document are assumed to exist. *)

Module Requests.

(** The body of a request: a [FormData] with its entries in order, or the
    argument of [JSON.stringify]. *)
Inductive body :=
| FormData (entries : list (jsstring * jsstring))
| JsonQuestion (question : jsstring) (context : option jsstring)
| JsonQuestions (questions : list jsstring).

Record request := {
  endpoint : jsstring;
  method : jsstring;
  headers : list (jsstring * jsstring);
  payload : body
}.

Section Handlers.

(** The value [response.json()] resolves to. *)
Variable V : Type.

Inductive json_result :=
| JsonRejected (message : jsstring)
| JsonValue (v : V).

(** [fetch] rejects with an error, or resolves to a response with its [ok]
    flag, its status and the outcome of [response.json()]. *)
Inductive fetch_result :=
| FetchRejected (message : jsstring)
| Response (ok : bool) (status : nat) (json : json_result).

Inductive event :=
| ShowLoading
| HideLoading
| ShowAlert (message type : jsstring)
| Fetch (r : request)
| Display (v : V).

Variable fetch : request -> fetch_result.

(** The display function called on success; [Some message] when it raises
    an error with this message. *)
Variable display : V -> option jsstring.

(** The [try] block after the request is built, with its [catch]: the
    effects up to the end of the block and the value received, if any. *)
Definition tryFetch (errorPrefix : jsstring) (r : request)
    : list event * option V :=
  match fetch r with
  | FetchRejected message =>
    ([Fetch r; ShowAlert (errorPrefix ++ message) (js "error")], None)
  | Response ok status json =>
    if negb ok
    then ([Fetch r;
           ShowAlert (errorPrefix ++ js "HTTP error! status: "
                      ++ number_to_string status) (js "error")], None)
    else match json with
         | JsonRejected message =>
           ([Fetch r; ShowAlert (errorPrefix ++ message) (js "error")], None)
         | JsonValue v =>
           match display v with
           | Some message =>
             ([Fetch r; Display v;
               ShowAlert (errorPrefix ++ message) (js "error")], Some v)
           | None => ([Fetch r; Display v], Some v)
           end
         end
  end.

(** [generateSingleAnswer], given the values of the three inputs. *)
Definition generateSingleAnswer (questionInput contextInput category : jsstring)
    : list event :=
  let question := trim questionInput in
  let context := trim contextInput in
  if negb (truthy (Some question))
  then [ShowAlert (js "Bitte geben Sie eine Frage ein") (js "warning")]
  else
    let r :=
      if truthy (Some category)
      then {| endpoint := js "/generate-answer-by-category";
              method := js "POST";
              headers := [];
              payload :=
                FormData ([(js "question", question);
                           (js "category", category)]
                          ++ (if truthy (Some context)
                              then [(js "context", context)] else [])) |}
      else {| endpoint := js "/generate-answer";
              method := js "POST";
              headers := [(js "Content-Type", js "application/json")];
              payload :=
                JsonQuestion question
                  (if truthy (Some context) then Some context else None) |}
    in
    [ShowLoading]
    ++ fst (tryFetch (js "Fehler beim Generieren der Antwort: ") r)
    ++ [HideLoading].

(** [generateAllAnswers]: the effects and the new value of the global
    [currentAnswers]. *)
Definition generateAllAnswers (currentQuestions : list jsstring)
    (currentAnswers : V) : list event * V :=
  if List.length currentQuestions =? 0
  then ([ShowAlert (js "Keine Fragen zum Verarbeiten vorhanden")
           (js "warning")], currentAnswers)
  else
    let r := {| endpoint := js "/generate-answers";
                method := js "POST";
                headers := [(js "Content-Type", js "application/json")];
                payload := JsonQuestions currentQuestions |} in
    let '(events, received) :=
      tryFetch (js "Fehler beim Generieren der Antworten: ") r in
    ([ShowLoading] ++ events ++ [HideLoading],
     match received with
     | Some answers => answers
     | None => currentAnswers
     end).

End Handlers.

(** The question and the context a request carries. *)
Fixpoint entry (name : jsstring) (entries : list (jsstring * jsstring))
    : option jsstring :=
  match entries with
  | [] => None
  | (n, v) :: entries' =>
    if list_eq_dec N.eq_dec n name then Some v else entry name entries'
  end.

Definition sent_question (r : request) : option jsstring :=
  match payload r with
  | FormData entries => entry (js "question") entries
  | JsonQuestion question _ => Some question
  | JsonQuestions _ => None
  end.

Definition sent_context (r : request) : option jsstring :=
  match payload r with
  | FormData entries => entry (js "context") entries
  | JsonQuestion _ context => context
  | JsonQuestions _ => None
  end.

Definition is_loading {V : Type} (e : event V) : bool :=
  match e with
  | ShowLoading _ | HideLoading _ => true
  | _ => false
  end.

Definition is_alert {V : Type} (e : event V) : bool :=
  match e with
  | ShowAlert _ _ _ => true
  | _ => false
  end.

Definition is_fetch {V : Type} (e : event V) : bool :=
  match e with
  | Fetch _ _ => true
  | _ => false
  end.

End Requests.

(** ** The results of processing the historical files *)

Module Processing.

(** A result as the server returns it: [file_name], [status],
    [qa_pairs_extracted] (a count) and [processing_time]. *)
Record Result := {
  file_name : jsstring;
  status : jsstring;
  qa_pairs_extracted : nat;
  processing_time : float
}.

(** A [div] put into the results container: its [className] and the string
    assigned to its [innerHTML]. *)
Record Div := { className : jsstring; innerHTML : jsstring }.

Definition is_success (r : Result) : bool :=
  if list_eq_dec N.eq_dec (status r) (js "success") then true else false.

Definition nl (indent : nat) : jsstring := 10%N :: repeat 32%N indent.

Section Display.

(** [Number.prototype.toFixed(2)] is taken as given. *)
Variable toFixed2 : float -> jsstring.

Definition resultDiv (result : Result) : Div :=
  {| className := js "alert "
                  ++ (if is_success result then js "success" else js "error");
     innerHTML :=
       if is_success result
       then nl 16 ++ js "<strong>" ++ file_name result ++ js "</strong><br>"
            ++ nl 16 ++ js "✅ " ++ number_to_string (qa_pairs_extracted result)
            ++ js " Q&A-Paare erfolgreich extrahiert"
            ++ nl 16 ++ js "(" ++ toFixed2 (processing_time result) ++ js "s)"
            ++ nl 12
       else nl 16 ++ js "<strong>" ++ file_name result ++ js "</strong><br>"
            ++ nl 16 ++ js "❌ " ++ status result
            ++ nl 12 |}.

(** The [results.forEach] loop: the children of the container and the
    running [totalPairs]. *)
Fixpoint forEachResult (results : list Result) (children : list Div)
    (totalPairs : nat) : list Div * nat :=
  match results with
  | [] => (children, totalPairs)
  | result :: results' =>
    forEachResult results' (children ++ [resultDiv result])
      (if is_success result
       then totalPairs + qa_pairs_extracted result else totalPairs)
  end.

Definition summaryDiv (totalPairs : nat) : Div :=
  {| className := js "alert success";
     innerHTML :=
       nl 12 ++ js "<strong>Zusammenfassung:</strong> "
       ++ number_to_string totalPairs
       ++ js " neue Q&A-Paare zur Wissensbasis hinzugefügt"
       ++ nl 8 |}.

(** [displayProcessingResults]: the children of the results container when
    it returns. *)
Definition displayProcessingResults (results : list Result) : list Div :=
  let '(children, totalPairs) := forEachResult results [] 0 in
  if 0 <? totalPairs then summaryDiv totalPairs :: children else children.

End Display.

(** The pairs added by the files that were processed with success. *)
Fixpoint pairs_added (results : list Result) : nat :=
  match results with
  | [] => 0
  | r :: results' =>
    (if is_success r then qa_pairs_extracted r else 0) + pairs_added results'
  end.

End Processing.

(** ** Sample data for the export *)

Module Samples.

Definition plan_answer : Workbook.Answer :=
  {| Workbook.answer := js "Laut Plan: etwa **4 Wochen**.";
     Workbook.confidence_score := 0.75;
     Workbook.fuzzy_score := 0.5;
     Workbook.sources := None |}.

Definition plan_row : Workbook.row :=
  [ Some (js "Wie lange?"); Some (js "Laut Plan:");
    Some (js "etwa 4 Wochen.");
    Some (js "n.n"); Some (js "n.n"); Some (js "Keine Quellen") ].

End Samples.

(** * Properties *)

(** ** Confidence bands *)

Section FloatOrder.

Import SpecFloat.

Lemma SFcompare_antisym (x y : spec_float) :
  SFcompare y x = option_map CompOpp (SFcompare x y).
Proof.
  destruct x as [s1|s1| |s1 m1 e1], y as [s2|s2| |s2 m2 e2]; simpl;
    try destruct s1; try destruct s2; try reflexivity;
    rewrite (Z.compare_antisym e2 e1); destruct (e2 ?= e1)%Z; simpl;
    try reflexivity; f_equal;
    change (Pos.compare_cont Eq m1 m2) with (m1 ?= m2)%positive;
    change (Pos.compare_cont Eq m2 m1) with (m2 ?= m1)%positive;
    rewrite (Pos.compare_antisym m2 m1);
    destruct (m2 ?= m1)%positive; reflexivity.
Qed.

Lemma SFleb_defined (x y : spec_float) :
  SFleb x y = true -> SFcompare x y <> None.
Proof. unfold SFleb. destruct (SFcompare x y); congruence. Qed.

Lemma SFcompare_defined_l (x y z : spec_float) :
  SFcompare z x <> None -> SFcompare y y <> None -> SFcompare x y <> None.
Proof.
  destruct x, y, z; simpl; congruence.
Qed.

(** For comparable numbers, [x < y] is the negation of [y <= x]. *)
Lemma ltb_not_leb (lo x y : float) :
  (lo <=? x)%float = true -> (y <=? y)%float = true ->
  (x <? y)%float = negb (y <=? x)%float.
Proof.
  rewrite !leb_spec, ltb_spec. intros Hx Hy.
  apply SFleb_defined in Hx, Hy.
  pose proof (SFcompare_defined_l _ _ _ Hx Hy) as Hd.
  unfold SFltb, SFleb. rewrite (SFcompare_antisym (Prim2SF x) (Prim2SF y)).
  destruct (SFcompare (Prim2SF x) (Prim2SF y)) as [[ | | ]|];
    try reflexivity.
  congruence.
Qed.

End FloatOrder.

Section BandProperties.

#[local] Abbreviation high := (js "high").
#[local] Abbreviation medium := (js "medium").
#[local] Abbreviation low := (js "low").

Lemma band_spec (hi lo score : float) :
  (hi <=? hi)%float = true ->
  let c := if (hi <=? score)%float then high
           else if (lo <=? score)%float then medium else low in
  (c = high <-> (hi <=? score)%float = true)
  /\ (c = medium
      <-> (lo <=? score)%float = true /\ (score <? hi)%float = true)
  /\ (c = low
      <-> (hi <=? score)%float = false /\ (lo <=? score)%float = false)
  /\ (c = high \/ c = medium \/ c = low).
Proof.
  intros Hhi c.
  assert (Hhm : high <> medium) by (vm_compute; discriminate).
  assert (Hhl : high <> low) by (vm_compute; discriminate).
  assert (Hml : medium <> low) by (vm_compute; discriminate).
  pose proof (fun H => @ltb_not_leb lo score hi H Hhi) as L. subst c.
  destruct (hi <=? score)%float, (lo <=? score)%float; simpl in L;
    try specialize (L eq_refl);
    intuition (try congruence).
Qed.

(** C2: both band functions are total step functions with inclusive lower
    bounds. For every score, [getConfidenceClass] answers "high" exactly when
    0.7 <= score, "medium" exactly when 0.4 <= score < 0.7 and "low"
    otherwise; [getFuzzyClass] does the same with the bounds 0.8 and 0.6.
    In particular 0.75 and the boundary 0.7 are "high", 0.5 is "medium" and
    0.1 is "low". *)
Theorem confidence_bands :
  (forall score : float,
     (getConfidenceClass score = high <-> (0.7 <=? score)%float = true)
     /\ (getConfidenceClass score = medium
         <-> (0.4 <=? score)%float = true /\ (score <? 0.7)%float = true)
     /\ (getConfidenceClass score = low
         <-> (0.7 <=? score)%float = false /\ (0.4 <=? score)%float = false)
     /\ (getConfidenceClass score = high \/ getConfidenceClass score = medium
         \/ getConfidenceClass score = low))
  /\ (forall score : float,
     (getFuzzyClass score = high <-> (0.8 <=? score)%float = true)
     /\ (getFuzzyClass score = medium
         <-> (0.6 <=? score)%float = true /\ (score <? 0.8)%float = true)
     /\ (getFuzzyClass score = low
         <-> (0.8 <=? score)%float = false /\ (0.6 <=? score)%float = false)
     /\ (getFuzzyClass score = high \/ getFuzzyClass score = medium
         \/ getFuzzyClass score = low))
  /\ getConfidenceClass 0.75 = high
  /\ getConfidenceClass 0.7 = high
  /\ getConfidenceClass 0.5 = medium
  /\ getConfidenceClass 0.1 = low.
Proof.
  split; [|split; [|repeat split; vm_compute; reflexivity]]; intro score.
  - exact (@band_spec 0.7 0.4 score eq_refl).
  - exact (@band_spec 0.8 0.6 score eq_refl).
Qed.

End BandProperties.

(** ** The splitter: the loop over the pattern library *)

Section LoopProperties.

Variable x : jsstring.

Lemma loop_skips (before ps : list pattern) (comments : list jsstring) :
  (forall q, In q before -> str_match q x = None) ->
  loop (before ++ ps) x comments = loop ps x comments.
Proof.
  induction before as [|q before IH]; intros Hnone; simpl.
  - reflexivity.
  - rewrite (Hnone q (or_introl eq_refl)).
    apply IH. intros q' Hq'. apply Hnone. now right.
Qed.

Lemma loop_breaks (p : pattern) (after : list pattern)
    (comments : list jsstring) :
  str_match p x <> None ->
  loop (p :: after) x comments = loop [p] x comments.
Proof.
  simpl. destruct (str_match p x); [reflexivity | congruence].
Qed.

Lemma loop_no_match (ps : list pattern) (comments : list jsstring) :
  (forall q, In q ps -> str_match q x = None) ->
  loop ps x comments = Some (x, comments).
Proof.
  intros Hnone. rewrite <- (app_nil_r ps). now rewrite loop_skips.
Qed.

End LoopProperties.

Lemma separate_no_match (x : jsstring) :
  (forall p, In p commentPatterns -> str_match p x = None) ->
  separateCommentAndAnswer x
  = Some {| comment := js ""; answer := cleanUp x |}.
Proof.
  intros Hnone.
  unfold separateCommentAndAnswer, separateWith.
  now rewrite (loop_no_match x commentPatterns [] Hnone).
Qed.

Section LibraryOrder.

(** C1 (evaluation of the code): on the markdown answer header the splitter
    returns the stripped answer both as the answer and as the comment; the
    comment is not empty. *)
Theorem antwort_header_comment_is_answer :
  separateCommentAndAnswer (js "**Antwort**: Ja, das ist möglich.")
  = Some {| comment := js "Ja, das ist möglich.";
            answer := js "Ja, das ist möglich." |}.
Proof. vm_compute. reflexivity. Qed.

(** C7: the German preamble "Basierend auf unseren Erfahrungen:" is returned
    as the comment and the remainder "Die Lieferzeit beträgt 4 Wochen." as
    the clean answer. *)
Theorem basierend_auf_example :
  separateCommentAndAnswer
    (js "Basierend auf unseren Erfahrungen: Die Lieferzeit beträgt 4 Wochen.")
  = Some {| comment := js "Basierend auf unseren Erfahrungen:";
            answer := js "Die Lieferzeit beträgt 4 Wochen." |}.
Proof. vm_compute. reflexivity. Qed.

(** C4: first match wins. When the library splits as [before ++ p :: after],
    no pattern of [before] matches the input and [p] does, the result is the
    one the pattern [p] alone produces, whatever patterns come after [p]. *)
Theorem first_match_wins (x : jsstring) (before after : list pattern)
    (p : pattern) :
  commentPatterns = before ++ p :: after ->
  (forall q, In q before -> str_match q x = None) ->
  str_match p x <> None ->
  separateCommentAndAnswer x = separateWith [p] x
  /\ forall later, separateWith (before ++ p :: later) x = separateWith [p] x.
Proof.
  intros Hlib Hnone Hp.
  assert (H : forall later,
             separateWith (before ++ p :: later) x = separateWith [p] x).
  { intros later. unfold separateWith.
    rewrite (loop_skips x before (p :: later) [] Hnone).
    now rewrite (loop_breaks x p later [] Hp). }
  split; [|exact H].
  unfold separateCommentAndAnswer. rewrite Hlib. apply H.
Qed.

Lemma first_match_wins_witness :
  separateCommentAndAnswer (js "Aufgrund der Daten: Ja.")
  = separateWith [s_ (preamble (rlit (js "Aufgrund")))]
      (js "Aufgrund der Daten: Ja.").
Proof.
  refine (proj1 (@first_match_wins (js "Aufgrund der Daten: Ja.")
            [s_ (preamble (rlit (js "Basierend auf")))]
            (skipn 2 commentPatterns)
            (s_ (preamble (rlit (js "Aufgrund")))) eq_refl _ _)).
  - intros q [<-|[]]. vm_compute. reflexivity.
  - vm_compute. discriminate.
Defined.

(** C6: when no pattern of the library matches, the comment is empty and the
    answer is the cleaned-up input; "Die Antwort lautet 42." is returned
    unchanged with an empty comment. *)
Theorem no_match_keeps_input (x : jsstring) :
  (forall p, In p commentPatterns -> str_match p x = None) ->
  separateCommentAndAnswer x
  = Some {| comment := js ""; answer := cleanUp x |}
  /\ separateCommentAndAnswer (js "Die Antwort lautet 42.")
     = Some {| comment := js ""; answer := js "Die Antwort lautet 42." |}.
Proof.
  intros Hnone. split; [|vm_compute; reflexivity].
  now apply separate_no_match.
Qed.

Lemma no_match_keeps_input_witness :
  separateCommentAndAnswer (js "Die Antwort lautet 42.")
  = Some {| comment := js "";
            answer := cleanUp (js "Die Antwort lautet 42.") |}.
Proof.
  refine (proj1 (@no_match_keeps_input (js "Die Antwort lautet 42.") _)).
  intros p Hp.
  repeat (destruct Hp as [<-|Hp]; [vm_compute; reflexivity|]).
  destruct Hp.
Defined.

End LibraryOrder.

(** ** Trimming *)

Section TrimProperties.

Lemma trimStart_app_nonspace (u : jsstring) (c : N) :
  isSpace c = false -> trimStart (u ++ [c]) = trimStart u ++ [c].
Proof.
  intros Hc. induction u as [|d u IH]; simpl.
  - now rewrite Hc.
  - destruct (isSpace d); [exact IH | reflexivity].
Qed.

Lemma trimStart_length (s : jsstring) :
  List.length (trimStart s) <= List.length s.
Proof.
  induction s as [|c s IH]; simpl; [lia|].
  destruct (isSpace c); simpl; lia.
Qed.

Lemma trimStart_head (s : jsstring) :
  match trimStart s with
  | [] => True
  | c :: _ => isSpace c = false
  end.
Proof.
  induction s as [|c s IH]; simpl; [exact I|].
  destruct (isSpace c) eqn:E; [exact IH | exact E].
Qed.

Lemma trimStart_fixed (s : jsstring) :
  match s with [] => True | c :: _ => isSpace c = false end ->
  trimStart s = s.
Proof.
  destruct s as [|c s]; simpl; [reflexivity|].
  now intros ->.
Qed.

Lemma trimStart_idem (s : jsstring) : trimStart (trimStart s) = trimStart s.
Proof. apply trimStart_fixed, trimStart_head. Qed.

Lemma trimEnd_idem (s : jsstring) : trimEnd (trimEnd s) = trimEnd s.
Proof.
  unfold trimEnd. now rewrite rev_involutive, trimStart_idem.
Qed.

Lemma trimStart_trimEnd (t : jsstring) :
  trimStart t = t -> trimStart (trimEnd t) = trimEnd t.
Proof.
  intros Ht. destruct t as [|c t]; [reflexivity|].
  assert (Hc : isSpace c = false).
  { pose proof (trimStart_head (c :: t)) as H. rewrite Ht in H. exact H. }
  unfold trimEnd. simpl rev.
  rewrite (trimStart_app_nonspace _ _ Hc), rev_app_distr. simpl.
  now rewrite Hc.
Qed.

Lemma trim_idem (s : jsstring) : trim (trim s) = trim s.
Proof.
  unfold trim.
  rewrite (trimStart_trimEnd _ (trimStart_idem s)).
  apply trimEnd_idem.
Qed.

Lemma trimStart_suffix (s : jsstring) : exists u, s = u ++ trimStart s.
Proof.
  induction s as [|c s [u IH]]; simpl.
  - now exists [].
  - destruct (isSpace c).
    + exists (c :: u). simpl. now rewrite <- IH.
    + now exists [].
Qed.

Lemma trimEnd_prefix (s : jsstring) : exists u, s = trimEnd s ++ u.
Proof.
  unfold trimEnd. destruct (trimStart_suffix (rev s)) as [u Hu].
  exists (rev u). rewrite <- rev_app_distr, <- Hu. now rewrite rev_involutive.
Qed.

(** A trimmed string is a substring of the original one. *)
Lemma trim_substring (s : jsstring) : exists u v, s = u ++ trim s ++ v.
Proof.
  unfold trim. destruct (trimStart_suffix s) as [u Hu].
  destruct (trimEnd_prefix (trimStart s)) as [v Hv].
  exists u, v. now rewrite <- Hv.
Qed.

Lemma trimStart_spaces (s : jsstring) :
  forallb isSpace s = true -> trimStart s = [].
Proof.
  induction s as [|c s IH]; simpl; [reflexivity|].
  intros H. apply andb_prop in H. destruct H as [-> H]. auto.
Qed.

Lemma trim_spaces (s : jsstring) : forallb isSpace s = true -> trim s = [].
Proof. intros H. unfold trim. now rewrite (trimStart_spaces _ H). Qed.

End TrimProperties.

(** ** The matcher *)

Section MatcherProperties.

Variable f : flags.

Lemma star_greedy_post (ok : N -> bool) (k : cont) (cs : list (nat * jsstring))
    (s : jsstring) :
  forall p res, star_greedy ok k p cs s = Some res ->
  exists st', k st' = Some res /\ caps st' = cs.
Proof.
  induction s as [|c s IH]; simpl; intros p res H.
  - eexists; split; [exact H | reflexivity].
  - destruct (ok c).
    + destruct (star_greedy ok k (S p) cs s) eqn:E; simpl in H.
      * injection H as <-. eapply IH, E.
      * eexists; split; [exact H | reflexivity].
    + eexists; split; [exact H | reflexivity].
Qed.

Lemma star_lazy_post (ok : N -> bool) (k : cont) (cs : list (nat * jsstring))
    (s : jsstring) :
  forall p res, star_lazy ok k p cs s = Some res ->
  exists st', k st' = Some res /\ caps st' = cs.
Proof.
  induction s as [|c s IH]; simpl; intros p res H.
  - destruct (k {| pos := p; rest := []; caps := cs |}) eqn:E; simpl in H;
      [|discriminate].
    injection H as <-. eexists; split; [exact E | reflexivity].
  - destruct (k {| pos := p; rest := c :: s; caps := cs |}) eqn:E; simpl in H.
    + injection H as <-. eexists; split; [exact E | reflexivity].
    + destruct (ok c); [|discriminate]. eapply IH, H.
Qed.

(** A successful match ends in a state accepted by the continuation, whose
    captures extend those of the start state. *)
Lemma m_post (r : regex) :
  forall k st res, m f r k st = Some res ->
  exists st', k st' = Some res /\ extends (caps st) (caps st').
Proof.
  induction r as [| |a|r1 IH1 r2 IH2|r1 IH1 r2 IH2|r IH|a|a|n r IH];
    simpl; intros k st res H.
  - exists st. split; [exact H | now exists []].
  - destruct (pos st =? 0); [|discriminate].
    exists st. split; [exact H | now exists []].
  - destruct (rest st) as [|c s']; [discriminate|].
    destruct (atom_ok f a c); [|discriminate].
    eexists; split; [exact H | now exists []].
  - destruct (IH1 _ _ _ H) as [st1 [H1 [l1 E1]]].
    destruct (IH2 _ _ _ H1) as [st2 [H2 [l2 E2]]].
    exists st2. split; [exact H2|].
    exists (l2 ++ l1). now rewrite E2, E1, app_assoc.
  - destruct (m f r1 k st) eqn:E; simpl in H.
    + injection H as <-. eapply IH1, E.
    + eapply IH2, H.
  - match type of H with orElse ?a _ = _ => destruct a eqn:E end; simpl in H.
    + injection H as <-. destruct (IH _ _ _ E) as [st1 [H1 E1]].
      destruct (pos st1 =? pos st); [discriminate|].
      now exists st1.
    + exists st. split; [exact H | now exists []].
  - destruct (star_greedy_post _ _ _ _ _ _ H) as [st' [H1 E1]].
    exists st'. split; [exact H1 | exists []; exact E1].
  - destruct (star_lazy_post _ _ _ _ _ _ H) as [st' [H1 E1]].
    exists st'. split; [exact H1 | exists []; exact E1].
  - destruct (IH _ _ _ H) as [st1 [H1 [l1 E1]]].
    eexists; split; [exact H1|]. simpl.
    exists ((n, firstn (pos st1 - pos st) (rest st)) :: l1). now rewrite E1.
Qed.

Lemma lookup_extends (n : nat) (cs cs' : list (nat * jsstring)) :
  extends cs cs' -> lookup n cs <> None -> lookup n cs' <> None.
Proof.
  intros [l ->] H. induction l as [|[i v] l IH]; simpl; [exact H|].
  destruct (i =? n); [discriminate | exact IH].
Qed.

(** A group that takes part in every match is defined in the final state. *)
Lemma m_binds (n : nat) (r : regex) :
  binds n r = true ->
  forall k st res, m f r k st = Some res ->
  exists st', k st' = Some res /\ lookup n (caps st') <> None.
Proof.
  induction r as [| |a|r1 IH1 r2 IH2|r1 IH1 r2 IH2|r IH|a|a|i r IH];
    simpl; intros Hb k st res H; try discriminate.
  - apply orb_prop in Hb. destruct Hb as [Hb|Hb].
    + destruct (IH1 Hb _ _ _ H) as [st1 [H1 L1]].
      destruct (m_post _ _ _ _ H1) as [st2 [H2 E2]].
      exists st2. split; [exact H2|]. eapply lookup_extends; eauto.
    + destruct (m_post _ _ _ _ H) as [st1 [H1 _]].
      eapply IH2; eauto.
  - apply andb_prop in Hb. destruct Hb as [Hb1 Hb2].
    destruct (m f r1 k st) eqn:E; simpl in H.
    + injection H as <-. eapply IH1; eauto.
    + eapply IH2; eauto.
  - destruct (i =? n) eqn:Ei.
    + destruct (m_post _ _ _ _ H) as [st1 [H1 _]].
      eexists; split; [exact H1|]. simpl. now rewrite Ei.
    + simpl in Hb. destruct (IH Hb _ _ _ H) as [st1 [H1 L1]].
      eexists; split; [exact H1|]. simpl. now rewrite Ei.
Qed.

End MatcherProperties.

Lemma search_binds (n : nat) (pt : pattern) (s : jsstring) :
  binds n (source pt) = true ->
  forall p e, search pt p s = Some e -> capture n e <> None.
Proof.
  intros Hb. induction s as [|c s IH]; simpl; intros p e H.
  - destruct (match_at pt p []) eqn:E; [|discriminate].
    injection H as <-. unfold match_at in E.
    destruct (m_binds _ _ _ Hb _ _ _ E) as [st' [H1 L1]].
    now injection H1 as <-.
  - destruct (match_at pt p (c :: s)) eqn:E.
    + injection H as <-. unfold match_at in E.
      destruct (m_binds _ _ _ Hb _ _ _ E) as [st' [H1 L1]].
      now injection H1 as <-.
    + eapply IH, H.
Qed.

(** ** Substrings *)

Section IncludesProperties.

Variable needle : jsstring.

Lemma startsWith_app (t v : jsstring) :
  startsWith needle t = true -> startsWith needle (t ++ v) = true.
Proof.
  revert t. induction needle as [|a n IH]; intros [|b t]; simpl; auto.
  - discriminate.
  - intros H. apply andb_prop in H. destruct H as [-> H]. simpl. auto.
Qed.

Lemma includes_cons (c : N) (s : jsstring) :
  includes needle (c :: s)
  = startsWith needle (c :: s) || includes needle s.
Proof. reflexivity. Qed.

Lemma includes_app_r (u t : jsstring) :
  includes needle t = true -> includes needle (u ++ t) = true.
Proof.
  intros H. induction u as [|c u IH]; [exact H|].
  rewrite <- app_comm_cons, includes_cons, IH. apply orb_true_r.
Qed.

Lemma includes_app_l (t v : jsstring) :
  includes needle t = true -> includes needle (t ++ v) = true.
Proof.
  induction t as [|c t IH]; intros H.
  - simpl in H. rewrite orb_false_r in H.
    pose proof (startsWith_app [] v H) as H'. simpl in H'.
    destruct v; simpl; rewrite H'; reflexivity.
  - rewrite includes_cons in H. rewrite <- app_comm_cons, includes_cons.
    apply orb_prop in H. destruct H as [H|H].
    + now rewrite app_comm_cons, (startsWith_app (c :: t) v H).
    + rewrite (IH H). apply orb_true_r.
Qed.

Lemma includes_trim (s : jsstring) :
  includes needle s = false -> includes needle (trim s) = false.
Proof.
  intros H. destruct (includes needle (trim s)) eqn:E; [|reflexivity].
  destruct (trim_substring s) as [u [v Hs]].
  rewrite Hs in H.
  now rewrite (includes_app_r u _ (includes_app_l _ v E)) in H.
Qed.

End IncludesProperties.

(** ** Removal of the emphasis markers from the comment *)

Section StarRemoval.

Lemma match_at_stars (p : nat) (s : jsstring) :
  match_at re_stars p s
  = if startsWith (js "**") s
    then Some {| pos := S (S p); rest := skipn 2 s; caps := [] |}
    else None.
Proof.
  destruct s as [|a [|b s]]; try reflexivity.
  - unfold match_at. simpl. now destruct (a =? 42)%N.
  - unfold match_at. simpl.
    destruct (a =? 42)%N; [|reflexivity]. now destruct (b =? 42)%N.
Qed.

Lemma replace_stars_clean (s : jsstring) :
  forall skip p,
    includes (js "**") (replace_from re_stars subst_empty skip p s) = false
    /\ (skip = 0 -> startsWith (js "*") s = false ->
        startsWith (js "*")
          (replace_from re_stars subst_empty skip p s) = false).
Proof.
  induction s as [|c s IH]; intros skip p.
  - destruct skip; split; reflexivity.
  - destruct skip as [|j].
    + simpl replace_from. rewrite match_at_stars.
      destruct (startsWith (js "**") (c :: s)) eqn:E.
      * cbn [pos subst_empty app]. replace (S (S p) - p) with 2 by lia.
        destruct s as [|d s];
          [simpl in E; destruct (c =? 42)%N; discriminate|].
        split; [apply IH|].
        intros _ Hc. simpl in E, Hc.
        destruct (c =? 42)%N; discriminate.
      * split.
        -- change (includes (js "**") (c :: ?t))
             with (startsWith (js "**") (c :: t) || includes (js "**") t).
           rewrite (proj1 (IH 0 (S p))), orb_false_r.
           simpl. destruct (c =? 42)%N eqn:Ec; [|reflexivity]. simpl.
           assert (Hs : startsWith (js "*") s = false).
           { simpl in E. rewrite Ec in E. simpl in E.
             destruct s as [|d s]; [reflexivity|]. simpl.
             now destruct (d =? 42)%N. }
           pose proof (proj2 (IH 0 (S p)) eq_refl Hs) as H.
           simpl in H.
           destruct (replace_from re_stars subst_empty 0 (S p) s);
             [reflexivity|].
           now destruct (n =? 42)%N.
        -- intros _ Hc. simpl in Hc |- *.
           now destruct (c =? 42)%N.
    + simpl replace_from. split; [apply IH | discriminate].
Qed.

Lemma clean_comment_ok (m1 : jsstring) :
  let c := trim (replace re_stars subst_empty m1) in
  includes (js "**") c = false /\ trim c = c.
Proof.
  split.
  - apply includes_trim, replace_stars_clean.
  - apply trim_idem.
Qed.

End StarRemoval.

(** ** Totality of the splitter *)

Section Totality.

Lemma library_binds_group1 :
  forallb (fun p => binds 1 (source p)) commentPatterns = true.
Proof. vm_compute. reflexivity. Qed.

Lemma library_anchored :
  forallb (fun p => anchored (source p)) commentPatterns = true.
Proof. vm_compute. reflexivity. Qed.

(** With group 1 defined, the body of the [if (match)] block cannot raise;
    it leaves at most one comment, which is clean. *)
Lemma on_match_defined (mt : mstate) :
  capture 1 mt <> None ->
  exists w cs, on_match mt [] = Some (w, cs)
    /\ (cs = [] \/ exists m1, cs = [trim (replace re_stars subst_empty m1)]).
Proof.
  unfold on_match. destruct (capture 1 mt) as [m1|]; [intros _|congruence].
  destruct (capture 2 mt) as [[|c2 m2]|]; simpl;
    (eexists; eexists; split; [reflexivity|]);
    repeat match goal with
    | |- context [if ?b then _ else _] => destruct b
    end; eauto.
Qed.

Lemma loop_defined (x : jsstring) (ps : list pattern) :
  forallb (fun p => binds 1 (source p)) ps = true ->
  exists w cs, loop ps x [] = Some (w, cs)
    /\ (cs = [] \/ exists m1, cs = [trim (replace re_stars subst_empty m1)]).
Proof.
  induction ps as [|p ps IH]; simpl; intros Hb.
  - exists x, []. auto.
  - apply andb_prop in Hb. destruct Hb as [Hp Hps].
    destruct (str_match p x) as [mt|] eqn:E; [|auto].
    apply on_match_defined. eapply search_binds; eauto.
Qed.

(** The splitter is defined on every string. *)
Lemma separate_total (x : jsstring) :
  exists w cs, loop commentPatterns x [] = Some (w, cs)
    /\ separateCommentAndAnswer x
       = Some {| comment := join (js " ") cs; answer := cleanUp w |}
    /\ (cs = [] \/ exists m1, cs = [trim (replace re_stars subst_empty m1)]).
Proof.
  destruct (loop_defined x commentPatterns library_binds_group1)
    as [w [cs [H Hcs]]].
  exists w, cs. repeat split; auto.
  unfold separateCommentAndAnswer, separateWith. now rewrite H.
Qed.

(** C9: for every input the splitter returns, and the returned comment
    contains no occurrence of "**" and equals its own [trim]. *)
Theorem comment_is_clean (x : jsstring) :
  exists r, separateCommentAndAnswer x = Some r
    /\ includes (js "**") (comment r) = false
    /\ trim (comment r) = comment r.
Proof.
  destruct (separate_total x) as [w [cs [_ [H Hcs]]]].
  eexists; split; [exact H|]. simpl.
  destruct Hcs as [->|[m1 ->]].
  - split; reflexivity.
  - apply clean_comment_ok.
Qed.

End Totality.

(** ** White-space input *)

Section WhiteSpaceInput.

Lemma m_bol_fails (f : flags) (r : regex) (k : cont) (st : mstate) :
  pos st <> 0 -> m f (RCat RBol r) k st = None.
Proof.
  intros H. simpl. destruct (pos st =? 0) eqn:E; [|reflexivity].
  apply Nat.eqb_eq in E. contradiction.
Qed.

Lemma search_anchored (pt : pattern) (s : jsstring) :
  anchored (source pt) = true -> forall p, search pt (S p) s = None.
Proof.
  intros Ha. unfold anchored in Ha.
  destruct (source pt) as [| | |r1 r2| | | | |] eqn:Es; try discriminate.
  destruct r1; try discriminate.
  assert (Hat : forall p t, match_at pt (S p) t = None).
  { intros p t. unfold match_at. rewrite Es. now apply m_bol_fails. }
  induction s as [|c s IH]; intros p; simpl; rewrite Hat; auto.
Qed.

(** An anchored pattern is only ever matched at index 0. *)
Lemma str_match_anchored (pt : pattern) (s : jsstring) :
  anchored (source pt) = true -> str_match pt s = match_at pt 0 s.
Proof.
  intros Ha. unfold str_match.
  destruct s as [|c s]; simpl; destruct (match_at pt 0 _); auto.
  now apply search_anchored.
Qed.

Lemma m_first_lit (f : flags) (r : regex) (c : N) :
  first_lit r = Some c ->
  forall k st,
    match rest st with
    | [] => True
    | d :: _ => atom_ok f (ALit c) d = false
    end ->
    m f r k st = None.
Proof.
  induction r as [| |a|r1 IH1 r2 IH2|r1 IH1 r2 IH2|r IH|a|a|n r IH];
    intros Hf k st Hd; try discriminate.
  - destruct a; try discriminate. injection Hf as ->. cbn [m].
    destruct (rest st) as [|d s']; [reflexivity|]. now rewrite Hd.
  - destruct r1; try (now apply IH1); try discriminate.
    simpl. destruct (pos st =? 0); [|reflexivity]. now apply IH2.
  - simpl. now apply IH.
Qed.

Lemma canonicalize_space (d : N) : isSpace d = true -> canonicalize d = d.
Proof.
  unfold canonicalize. intros H.
  destruct (N.leb_spec 97 d); [|reflexivity].
  destruct (N.leb_spec d 122); [|reflexivity].
  exfalso. revert H. unfold isSpace, isWhiteSpace, isLineTerminator.
  repeat match goal with
  | |- context [(d =? ?n)%N] => destruct (N.eqb_spec d n); [lia|]
  end.
  destruct (N.leb_spec 8192 d); [lia|]. discriminate.
Qed.

Lemma space_safe_head (pt : pattern) (c d : N) :
  first_lit (source pt) = Some c -> space_safe pt = true ->
  isSpace d = true -> atom_ok (flag pt) (ALit c) d = false.
Proof.
  unfold space_safe. intros -> Hs Hd. simpl.
  destruct (ignoreCase (flag pt)).
  - rewrite (canonicalize_space _ Hd).
    destruct (N.eqb_spec d (canonicalize c)) as [->|]; [|reflexivity].
    now rewrite Hd in Hs.
  - destruct (N.eqb_spec d c) as [->|]; [|reflexivity].
    now rewrite Hd in Hs.
Qed.

(** A pattern that begins with a character other than white space fails on
    white space at every index. *)
Lemma match_at_spaces (pt : pattern) (p : nat) (s : jsstring) :
  space_safe pt = true -> forallb isSpace s = true -> match_at pt p s = None.
Proof.
  intros Hs Hx. unfold match_at.
  destruct (first_lit (source pt)) as [c|] eqn:Ef;
    [|unfold space_safe in Hs; now rewrite Ef in Hs].
  apply (m_first_lit _ _ _ Ef). simpl.
  destruct s as [|d s]; [exact I|].
  simpl in Hx. apply andb_prop in Hx.
  eapply space_safe_head; eauto. tauto.
Qed.

Lemma replace_spaces (pt : pattern) (repl : mstate -> jsstring)
    (s : jsstring) :
  space_safe pt = true -> forallb isSpace s = true ->
  forall p, replace_from pt repl 0 p s = s.
Proof.
  intros Hs. induction s as [|c s IH]; intros Hx p; simpl.
  - now rewrite (match_at_spaces pt p [] Hs).
  - rewrite (match_at_spaces pt p (c :: s) Hs Hx).
    simpl in Hx. apply andb_prop in Hx. f_equal. now apply IH.
Qed.

Lemma library_space_safe : forallb space_safe commentPatterns = true.
Proof. vm_compute. reflexivity. Qed.

Lemma cleanUp_spaces (s : jsstring) :
  forallb isSpace s = true -> cleanUp s = [].
Proof.
  intros Hx. unfold cleanUp, replace.
  rewrite (replace_spaces re_head subst_empty s eq_refl Hx).
  rewrite (replace_spaces re_bold subst_group1 s eq_refl Hx).
  now apply trim_spaces.
Qed.

(** C5: on the empty string and on every string made of white space only,
    the splitter does not raise and returns the pair of empty strings. *)
Theorem whitespace_input (x : jsstring) :
  forallb isSpace x = true ->
  separateCommentAndAnswer x = Some {| comment := js ""; answer := js "" |}.
Proof.
  intros Hx. unfold separateCommentAndAnswer, separateWith.
  rewrite loop_no_match.
  - now rewrite (cleanUp_spaces x Hx).
  - intros q Hq.
    pose proof (proj1 (forallb_forall _ _) library_anchored q Hq) as Ha.
    pose proof (proj1 (forallb_forall _ _) library_space_safe q Hq) as Hs.
    rewrite (str_match_anchored q x Ha). now apply match_at_spaces.
Qed.

Lemma whitespace_input_witness :
  separateCommentAndAnswer (js "  " ++ [9; 10; 160; 8232]%N)
  = Some {| comment := js ""; answer := js "" |}
  /\ separateCommentAndAnswer (js "")
     = Some {| comment := js ""; answer := js "" |}.
Proof.
  split.
  - apply (whitespace_input (js "  " ++ [9; 10; 160; 8232]%N)).
    vm_compute. reflexivity.
  - apply (whitespace_input (js "")). reflexivity.
Defined.

End WhiteSpaceInput.

(** ** Bold spans *)

Section BoldSpans.

Lemma startsWith_stars_skipn (t : jsstring) :
  startsWith (js "**") t = true -> t = js "**" ++ skipn 2 t.
Proof.
  destruct t as [|a [|b t]]; simpl; try discriminate.
  - now destruct (a =? 42)%N.
  - destruct (N.eqb_spec a 42) as [->|]; [|discriminate].
    destruct (N.eqb_spec b 42) as [->|]; [|discriminate]. reflexivity.
Qed.

Lemma span_cons (c : N) (t : jsstring) :
  span (c :: t)
  = if startsWith (js "**") (c :: t) then Some ([], skipn 2 (c :: t))
    else if isLineTerminator c then None
    else match span t with
         | Some (X, r) => Some (c :: X, r)
         | None => None
         end.
Proof. reflexivity. Qed.

Lemma span_sound (t : jsstring) :
  forall X r, span t = Some (X, r) ->
  t = X ++ js "**" ++ r /\ single_line X.
Proof.
  induction t as [|c t IH]; intros X r H; [discriminate|].
  rewrite span_cons in H.
  destruct (startsWith (js "**") (c :: t)) eqn:E.
  - injection H as <- <-. split; [|reflexivity].
    now apply startsWith_stars_skipn.
  - destruct (isLineTerminator c) eqn:El; [discriminate|].
    destruct (span t) as [[X' r']|]; [|discriminate].
    injection H as <- <-. destruct (IH _ _ eq_refl) as [-> HX].
    split; [reflexivity|]. unfold single_line. simpl. now rewrite El.
Qed.

Lemma span_complete (X r : jsstring) :
  single_line X -> closes (X ++ js "**" ++ r) = true.
Proof.
  unfold closes, single_line.
  induction X as [|c X IH]; intros HX; [reflexivity|].
  simpl in HX. apply andb_prop in HX. destruct HX as [Hc HX].
  rewrite <- app_comm_cons, span_cons.
  destruct (startsWith _ _); [reflexivity|].
  apply negb_true_iff in Hc. rewrite Hc.
  specialize (IH HX). now destruct (span _) as [[? ?]|].
Qed.

Lemma closes_cons (c : N) (t : jsstring) :
  isLineTerminator c = false -> closes t = true -> closes (c :: t) = true.
Proof.
  unfold closes. intros Hc Ht. rewrite span_cons, Hc.
  destruct (startsWith _ _); [reflexivity|].
  now destruct (span t) as [[? ?]|].
Qed.

Lemma closes_stars (t : jsstring) :
  startsWith (js "**") t = true -> closes t = true.
Proof.
  unfold closes. destruct t as [|c t]; [discriminate|].
  rewrite span_cons. now intros ->.
Qed.

Lemma closes_app (t v : jsstring) :
  closes t = true -> closes (t ++ v) = true.
Proof.
  unfold closes. destruct (span t) as [[X r]|] eqn:E; [intros _|discriminate].
  destruct (span_sound _ _ _ E) as [-> HX].
  rewrite <- !app_assoc. now apply span_complete.
Qed.

Lemma opens_iff (s : jsstring) : opens s = true <-> bold_span_at_head s.
Proof.
  unfold opens, bold_span_at_head. split.
  - intros H. apply andb_prop in H. destruct H as [Hs Hc].
    unfold closes in Hc.
    destruct (span (skipn 2 s)) as [[X r]|] eqn:E; [|discriminate].
    destruct (span_sound _ _ _ E) as [Ht HX].
    exists X, r. split; [|exact HX].
    now rewrite <- Ht, <- startsWith_stars_skipn.
  - intros [t [r [-> Ht]]]. simpl. now apply span_complete.
Qed.

Lemma has_pair_cons (c : N) (s : jsstring) :
  has_pair (c :: s) = opens (c :: s) || has_pair s.
Proof. reflexivity. Qed.

Lemma has_pair_app_r (u t : jsstring) :
  has_pair t = true -> has_pair (u ++ t) = true.
Proof.
  intros H. induction u as [|c u IH]; [exact H|].
  rewrite <- app_comm_cons, has_pair_cons, IH. apply orb_true_r.
Qed.

Lemma opens_app (t v : jsstring) :
  opens t = true -> opens (t ++ v) = true.
Proof.
  rewrite !opens_iff. intros [X [r [-> HX]]].
  exists X, (r ++ v). split; [|exact HX].
  now rewrite <- !app_assoc.
Qed.

Lemma has_pair_app_l (t v : jsstring) :
  has_pair t = true -> has_pair (t ++ v) = true.
Proof.
  induction t as [|c t IH]; intros H; [discriminate|].
  rewrite has_pair_cons in H. rewrite <- app_comm_cons, has_pair_cons.
  apply orb_prop in H. destruct H as [H|H].
  - now rewrite app_comm_cons, (opens_app _ v H).
  - rewrite (IH H). apply orb_true_r.
Qed.

Lemma has_pair_iff (s : jsstring) : has_pair s = true <-> has_bold_span s.
Proof.
  unfold has_bold_span. split.
  - induction s as [|c s IH]; [discriminate|].
    rewrite has_pair_cons. intros H. apply orb_prop in H.
    destruct H as [H|H].
    + exists [], (c :: s). split; [reflexivity | now apply opens_iff].
    + destruct (IH H) as [u [v [-> Hv]]]. now exists (c :: u), v.
  - intros [u [v [-> Hv]]]. apply has_pair_app_r.
    apply opens_iff in Hv. destruct v; [discriminate|].
    now rewrite has_pair_cons, Hv.
Qed.

Lemma has_pair_trim (s : jsstring) :
  has_pair s = false -> has_pair (trim s) = false.
Proof.
  intros H. destruct (has_pair (trim s)) eqn:E; [|reflexivity].
  destruct (trim_substring s) as [u [v Hs]]. rewrite Hs in H.
  now rewrite (has_pair_app_r u _ (has_pair_app_l _ v E)) in H.
Qed.

(** The enclosed text found by [span] neither contains nor ends in a piece
    of a marker: putting it in front of a string adds no bold span. *)
Lemma span_has_pair (t : jsstring) :
  forall X r o, span t = Some (X, r) -> has_pair (X ++ o) = has_pair o.
Proof.
  induction t as [|c t IH]; intros X r o H; [discriminate|].
  rewrite span_cons in H.
  destruct (startsWith (js "**") (c :: t)) eqn:E.
  - now injection H as <- <-.
  - destruct (isLineTerminator c); [discriminate|].
    destruct (span t) as [[X' r']|] eqn:Et; [|discriminate].
    injection H as <- <-.
    rewrite <- app_comm_cons, has_pair_cons, (IH _ _ o eq_refl).
    replace (opens (c :: X' ++ o)) with false; [reflexivity|].
    symmetry. unfold opens. apply andb_false_iff. left.
    destruct (span_sound _ _ _ Et) as [Ht _]. rewrite Ht in E.
    simpl in E |- *. destruct (c =? 42)%N; [|reflexivity].
    simpl in E |- *. destruct X' as [|d X']; [discriminate|].
    simpl in E |- *. now destruct (d =? 42)%N.
Qed.

End BoldSpans.

(** ** The bold pattern, matched *)

Section BoldPattern.

Lemma m_stars (f : flags) (k : cont) (st : mstate) :
  ignoreCase f = false ->
  m f (rlit (js "**")) k st
  = if startsWith (js "**") (rest st)
    then k {| pos := S (S (pos st)); rest := skipn 2 (rest st);
              caps := caps st |}
    else None.
Proof.
  intros Hf. destruct st as [p s cs]. simpl. rewrite Hf.
  destruct s as [|a [|b s]]; try reflexivity.
  - now destruct (a =? 42)%N.
  - destruct (a =? 42)%N; [|reflexivity]. now destruct (b =? 42)%N.
Qed.

Lemma star_lazy_eq (ok : N -> bool) (k : cont) (p : nat)
    (cs : list (nat * jsstring)) (s : jsstring) :
  star_lazy ok k p cs s
  = orElse (k {| pos := p; rest := s; caps := cs |})
      match s with
      | c :: s' => if ok c then star_lazy ok k (S p) cs s' else None
      | [] => None
      end.
Proof. destruct s; reflexivity. Qed.

(** The lazy [.*?] in front of a closing marker stops at the first marker
    of the line, provided the rest of the pattern cannot fail. *)
Lemma star_lazy_span (k : cont) (cs : list (nat * jsstring))
    (F : nat -> jsstring -> mstate) :
  (forall q t, k {| pos := q; rest := t; caps := cs |}
               = if startsWith (js "**") t then Some (F q t) else None) ->
  forall t p,
    star_lazy (atom_ok fl_g ADot) k p cs t
    = match span t with
      | Some (X, r) => Some (F (p + List.length X) (js "**" ++ r))
      | None => None
      end.
Proof.
  intros Hk. induction t as [|c t IH]; intros p; rewrite star_lazy_eq, Hk.
  - reflexivity.
  - rewrite span_cons. destruct (startsWith (js "**") (c :: t)) eqn:E.
    + cbn [orElse List.length]. rewrite Nat.add_0_r.
      now rewrite <- (startsWith_stars_skipn _ E).
    + cbn [orElse atom_ok fl_g dotAll orb].
      destruct (isLineTerminator c); [reflexivity|]. cbn [negb].
      rewrite IH. destruct (span t) as [[X r]|]; [|reflexivity].
      cbn [List.length]. now rewrite Nat.add_succ_r.
Qed.

Lemma match_at_bold (p : nat) (s : jsstring) :
  match_at re_bold p s
  = if startsWith (js "**") s
    then match span (skipn 2 s) with
         | Some (X, r) =>
           Some {| pos := p + 4 + List.length X; rest := r;
                   caps := [(1, X)] |}
         | None => None
         end
    else None.
Proof.
  unfold match_at.
  change (source re_bold)
    with (RCat (rlit (js "**"))
               (RCat (RGroup 1 (RLazyStar ADot)) (rlit (js "**")))).
  cbn [m flag re_bold]. rewrite (m_stars fl_g _ _ eq_refl). cbn [pos rest caps].
  destruct (startsWith (js "**") s); [|reflexivity].
  cbn [m pos rest caps].
  rewrite (star_lazy_span _ []
             (fun q t => {| pos := S (S q); rest := skipn 2 t;
                            caps := [(1, firstn (q - S (S p)) (skipn 2 s))] |})).
  - destruct (span (skipn 2 s)) as [[X r]|] eqn:E; [|reflexivity].
    destruct (span_sound _ _ _ E) as [-> _]. do 2 f_equal.
    + lia.
    + replace (S (S p) + List.length X - S (S p)) with (List.length X + 0)
        by lia.
      now rewrite firstn_app_2, app_nil_r.
  - intros q t. now rewrite (m_stars fl_g _ _ eq_refl).
Qed.

Lemma match_at_bold_none (p : nat) (s : jsstring) :
  opens s = false -> match_at re_bold p s = None.
Proof.
  unfold opens, closes. rewrite match_at_bold.
  destruct (startsWith (js "**") s); [|reflexivity].
  now destruct (span (skipn 2 s)) as [[? ?]|].
Qed.

Lemma replace_from_skip (pt : pattern) (repl : mstate -> jsstring)
    (u t : jsstring) :
  forall p, replace_from pt repl (List.length u) p (u ++ t)
            = replace_from pt repl 0 (p + List.length u) t.
Proof.
  induction u as [|c u IH]; intros p.
  - now rewrite Nat.add_0_r.
  - cbn [List.length app replace_from]. rewrite IH.
    now rewrite Nat.add_succ_r.
Qed.

Lemma unbold_nil (p : nat) : unbold p [] = [].
Proof. reflexivity. Qed.

Lemma unbold_copy (p : nat) (c : N) (s : jsstring) :
  opens (c :: s) = false -> unbold p (c :: s) = c :: unbold (S p) s.
Proof.
  intros H. unfold unbold. cbn [replace_from].
  now rewrite (match_at_bold_none p _ H).
Qed.

Lemma unbold_span (p : nat) (s X r : jsstring) :
  startsWith (js "**") s = true -> span (skipn 2 s) = Some (X, r) ->
  unbold p s = X ++ unbold (p + 4 + List.length X) r.
Proof.
  intros Hs Hx. unfold unbold.
  destruct (span_sound _ _ _ Hx) as [Ht _].
  pose proof (startsWith_stars_skipn _ Hs) as Hs'. rewrite Ht in Hs'.
  destruct s as [|c s]; [discriminate|].
  cbn [replace_from]. rewrite match_at_bold, Hs, Hx. cbn [pos].
  replace (p + 4 + List.length X - p) with (S (3 + List.length X)) by lia.
  unfold subst_group1, capture. cbn [caps lookup Nat.eqb]. f_equal.
  assert (Hs2 : s = (42%N :: X ++ [42%N; 42%N]) ++ r).
  { simpl in Hs'. injection Hs' as _ ->. simpl. now rewrite <- app_assoc. }
  rewrite Hs2.
  replace (3 + List.length X) with (List.length (42%N :: X ++ [42%N; 42%N]))
    by (simpl; rewrite length_app; simpl; lia).
  rewrite replace_from_skip. f_equal.
  simpl. rewrite length_app. simpl. lia.
Qed.

End BoldPattern.

(** ** The bold-stripping step leaves no bold span *)

Section Unbold.

Lemma startsWith_stars_cons (c : N) (o : jsstring) :
  startsWith (js "**") (c :: o) = (c =? 42)%N && startsWith (js "*") o.
Proof. destruct o; reflexivity. Qed.

Lemma startsWith_star_inv (o : jsstring) :
  startsWith (js "*") o = true -> exists o', o = 42%N :: o'.
Proof.
  destruct o as [|d o]; [discriminate|]. simpl.
  destruct (N.eqb_spec d 42) as [->|]; [|discriminate]. now exists o.
Qed.

Lemma span_length (t : jsstring) :
  forall X r, span t = Some (X, r) -> List.length r < List.length t.
Proof.
  intros X r H. destruct (span_sound _ _ _ H) as [-> _].
  rewrite !length_app. simpl. lia.
Qed.

Lemma unbold_cases (p : nat) (s : jsstring) : unbold_case p s.
Proof.
  destruct s as [|c s]; [now apply UEnd|].
  destruct (opens (c :: s)) eqn:E.
  - unfold opens, closes in E. apply andb_prop in E. destruct E as [Hs Hc].
    destruct (span (skipn 2 (c :: s))) as [[X r]|] eqn:Ex; [|discriminate].
    eapply USpan; eauto. now apply unbold_span.
  - eapply UCopy; eauto. now apply unbold_copy.
Qed.

Lemma unbold_head_star (p : nat) (s : jsstring) :
  startsWith (js "*") (unbold p s) = true -> startsWith (js "*") s = true.
Proof.
  destruct (unbold_cases p s) as [-> ->|c s' -> _ ->|X r Hs _ _].
  - discriminate.
  - simpl. now destruct (c =? 42)%N.
  - destruct s as [|c s]; [discriminate|].
    rewrite startsWith_stars_cons in Hs. simpl.
    now destruct (c =? 42)%N.
Qed.

(** A closing marker reachable in the output was reachable in the input. *)
Lemma unbold_closes (s : jsstring) :
  forall p, closes (unbold p s) = true -> closes s = true.
Proof.
  induction s as [|c s IH]; intros p H; [discriminate|].
  destruct (unbold_cases p (c :: s)) as [E _|c' s' E _ Hu|X r Hs _ _].
  - discriminate.
  - injection E as <- <-. rewrite Hu in H.
    unfold closes in H. rewrite span_cons in H.
    destruct (startsWith (js "**") (c :: unbold (S p) s)) eqn:Es.
    + apply closes_stars. rewrite startsWith_stars_cons in Es |- *.
      apply andb_prop in Es. destruct Es as [-> Es].
      now rewrite (unbold_head_star _ _ Es).
    + destruct (isLineTerminator c) eqn:El; [discriminate|].
      apply closes_cons; [exact El|]. apply (IH (S p)).
      unfold closes. now destruct (span (unbold (S p) s)) as [[? ?]|].
  - now apply closes_stars.
Qed.

Lemma closes_star_cons (t : jsstring) :
  closes t = true -> closes (42%N :: t) = true.
Proof. now apply closes_cons. Qed.

Lemma unbold_no_pair_len (n : nat) :
  forall s p, List.length s <= n -> has_pair (unbold p s) = false.
Proof.
  induction n as [|n IH]; intros s p Hn.
  - destruct s; [reflexivity | simpl in Hn; lia].
  - destruct (unbold_cases p s) as [_ ->|c s' -> Ho ->|X r Hs Hx ->].
    + reflexivity.
    + simpl in Hn.
      rewrite has_pair_cons, (IH s' (S p)) by lia. rewrite orb_false_r.
      destruct (opens (c :: unbold (S p) s')) eqn:E; [|reflexivity].
      exfalso. unfold opens in E. apply andb_prop in E.
      destruct E as [Es Ec]. rewrite startsWith_stars_cons in Es.
      apply andb_prop in Es. destruct Es as [Hc Es].
      apply N.eqb_eq in Hc. subst c.
      destruct (startsWith_star_inv _ (unbold_head_star _ _ Es)) as [s'' ->].
      assert (Hcl : closes s'' = true).
      { destruct (unbold_cases (S p) (42%N :: s''))
          as [E _|c' t' E Ho' Hu|X r Hs Hx _].
        - discriminate.
        - injection E as <- <-. rewrite Hu in Ec. cbn [skipn] in Ec.
          now apply unbold_closes in Ec.
        - destruct s'' as [|d t1]; [discriminate|].
          rewrite startsWith_stars_cons in Hs.
          apply andb_prop in Hs. destruct Hs as [_ Hs].
          destruct (startsWith_star_inv _ Hs) as [t2 E2].
          injection E2 as -> ->. cbn [skipn] in Hx.
          apply closes_star_cons. unfold closes. now rewrite Hx. }
      unfold opens in Ho. cbn [skipn] in Ho. rewrite Hcl in Ho.
      discriminate.
    + pose proof (span_length _ _ _ Hx) as Hl.
      assert (Hs2 : List.length (skipn 2 s) <= List.length s)
        by (rewrite length_skipn; lia).
      rewrite (span_has_pair _ _ _ _ Hx). apply IH. lia.
Qed.

(** After the bold-stripping step no bold span on a single line is left. *)
Lemma unbold_no_pair (s : jsstring) (p : nat) : has_pair (unbold p s) = false.
Proof. now apply (unbold_no_pair_len (List.length s)). Qed.



Lemma unbold_fixed (s : jsstring) :
  has_pair s = false -> forall p, unbold p s = s.
Proof.
  induction s as [|c s IH]; intros H p; [reflexivity|].
  rewrite has_pair_cons in H. apply orb_false_iff in H.
  destruct H as [Ho Hs].
  rewrite (unbold_copy p _ _ Ho). f_equal. now apply IH.
Qed.

End Unbold.

(** ** The index of the matcher follows the input read *)

Section Tracking.

Variable f : flags.

Lemma advances_refl (st : mstate) : advances st st.
Proof. exists []. split; [reflexivity | simpl; lia]. Qed.

Lemma advances_trans (a b c : mstate) :
  advances a b -> advances b c -> advances a c.
Proof.
  intros [u [Hu Pu]] [v [Hv Pv]]. exists (u ++ v). split.
  - now rewrite Hu, Hv, app_assoc.
  - rewrite length_app. lia.
Qed.

Lemma advances_step (p : nat) (c : N) (s : jsstring)
    (cs : list (nat * jsstring)) (st' : mstate) :
  advances {| pos := S p; rest := s; caps := cs |} st' ->
  advances {| pos := p; rest := c :: s; caps := cs |} st'.
Proof.
  intros [u [Hu Pu]]. simpl in Hu, Pu. exists (c :: u). simpl. split.
  - now rewrite Hu.
  - lia.
Qed.

Lemma star_greedy_track (ok : N -> bool) (k : cont)
    (cs : list (nat * jsstring)) (s : jsstring) :
  forall p res, star_greedy ok k p cs s = Some res ->
  exists st', k st' = Some res
    /\ advances {| pos := p; rest := s; caps := cs |} st'.
Proof.
  induction s as [|c s IH]; simpl; intros p res H.
  - eexists; split; [exact H | apply advances_refl].
  - destruct (ok c).
    + destruct (star_greedy ok k (S p) cs s) eqn:E; simpl in H.
      * injection H as <-. destruct (IH _ _ E) as [st' [H1 A1]].
        exists st'. split; [exact H1 | now apply advances_step].
      * eexists; split; [exact H | apply advances_refl].
    + eexists; split; [exact H | apply advances_refl].
Qed.

Lemma star_lazy_track (ok : N -> bool) (k : cont)
    (cs : list (nat * jsstring)) (s : jsstring) :
  forall p res, star_lazy ok k p cs s = Some res ->
  exists st', k st' = Some res
    /\ advances {| pos := p; rest := s; caps := cs |} st'.
Proof.
  induction s as [|c s IH]; intros p res H; rewrite star_lazy_eq in H.
  - destruct (k {| pos := p; rest := []; caps := cs |}) eqn:E; simpl in H;
      [|discriminate].
    injection H as <-. eexists; split; [exact E | apply advances_refl].
  - destruct (k {| pos := p; rest := c :: s; caps := cs |}) eqn:E;
      simpl in H.
    + injection H as <-. eexists; split; [exact E | apply advances_refl].
    + destruct (ok c); [|discriminate].
      destruct (IH _ _ H) as [st' [H1 A1]].
      exists st'. split; [exact H1 | now apply advances_step].
Qed.

Lemma m_track (r : regex) :
  forall k st res, m f r k st = Some res ->
  exists st', k st' = Some res /\ advances st st'.
Proof.
  induction r as [| |a|r1 IH1 r2 IH2|r1 IH1 r2 IH2|r IH|a|a|n r IH];
    simpl; intros k st res H.
  - exists st. split; [exact H | apply advances_refl].
  - destruct (pos st =? 0); [|discriminate].
    exists st. split; [exact H | apply advances_refl].
  - destruct (rest st) as [|c s'] eqn:Er; [discriminate|].
    destruct (atom_ok f a c); [|discriminate].
    eexists; split; [exact H|].
    exists [c]. simpl. split; [exact Er | lia].
  - destruct (IH1 _ _ _ H) as [st1 [H1 A1]].
    destruct (IH2 _ _ _ H1) as [st2 [H2 A2]].
    exists st2. split; [exact H2 | eapply advances_trans; eauto].
  - destruct (m f r1 k st) eqn:E; simpl in H.
    + injection H as <-. eapply IH1, E.
    + eapply IH2, H.
  - match type of H with orElse ?a _ = _ => destruct a eqn:E end; simpl in H.
    + injection H as <-. destruct (IH _ _ _ E) as [st1 [H1 A1]].
      destruct (pos st1 =? pos st); [discriminate|].
      now exists st1.
    + exists st. split; [exact H | apply advances_refl].
  - destruct st as [p s cs]. eapply star_greedy_track, H.
  - destruct st as [p s cs]. eapply star_lazy_track, H.
  - destruct (IH _ _ _ H) as [st1 [H1 A1]].
    eexists; split; [exact H1 | exact A1].
Qed.

End Tracking.

Lemma match_at_track (pt : pattern) (p : nat) (s : jsstring) (e : mstate) :
  match_at pt p s = Some e ->
  exists u, s = u ++ rest e /\ pos e = p + List.length u.
Proof.
  intros H. destruct (m_track _ _ _ _ _ H) as [st' [H1 A1]].
  injection H1 as <-. exact A1.
Qed.

(** ** Replacement with an anchored global pattern *)

Section AnchoredReplace.

Variable pt : pattern.
Variable repl : mstate -> jsstring.
Hypothesis pt_anchored : anchored (source pt) = true.

Lemma match_at_anchored (p : nat) (t : jsstring) :
  match_at pt (S p) t = None.
Proof.
  unfold anchored in pt_anchored. unfold match_at.
  destruct (source pt) as [| | |r1 r2| | | | |]; try discriminate.
  destruct r1; try discriminate. now apply m_bol_fails.
Qed.

Lemma replace_from_anchored (t : jsstring) :
  forall p, replace_from pt repl 0 (S p) t = t.
Proof.
  induction t as [|c t IH]; intros p; simpl; rewrite match_at_anchored.
  - reflexivity.
  - now rewrite IH.
Qed.

(** At most one replacement is made, at index 0. *)
Lemma replace_anchored (s : jsstring) :
  replace pt repl s
  = match match_at pt 0 s with
    | Some e => repl e ++ rest e
    | None => s
    end.
Proof.
  unfold replace. destruct s as [|c s]; cbn [replace_from].
  - destruct (match_at pt 0 []) as [e|] eqn:E; [|reflexivity].
    destruct (match_at_track _ _ _ _ E) as [u [Hu Pu]].
    symmetry in Hu. apply app_eq_nil in Hu. destruct Hu as [-> Hr].
    rewrite Pu, Hr. reflexivity.
  - destruct (match_at pt 0 (c :: s)) as [e|] eqn:E.
    + destruct (match_at_track _ _ _ _ E) as [u [Hu Pu]].
      rewrite Pu. f_equal. destruct u as [|d u]; simpl in Hu |- *.
      * rewrite <- Hu. now rewrite replace_from_anchored.
      * injection Hu as _ ->.
        now rewrite replace_from_skip, replace_from_anchored.
    + now rewrite replace_from_anchored.
Qed.

End AnchoredReplace.

(** ** The header pattern, matched *)

Section HeaderPattern.

Lemma m_cat (f : flags) (r1 r2 : regex) (k : cont) (st : mstate) :
  m f (RCat r1 r2) k st = m f r1 (m f r2 k) st.
Proof. reflexivity. Qed.

Lemma m_bol (f : flags) (k : cont) (st : mstate) :
  m f RBol k st = if pos st =? 0 then k st else None.
Proof. reflexivity. Qed.

Lemma m_star (f : flags) (a : atom) (k : cont) (st : mstate) :
  m f (RStar a) k st
  = star_greedy (atom_ok f a) k (pos st) (caps st) (rest st).
Proof. reflexivity. Qed.

Lemma m_lazy (f : flags) (a : atom) (k : cont) (st : mstate) :
  m f (RLazyStar a) k st
  = star_lazy (atom_ok f a) k (pos st) (caps st) (rest st).
Proof. reflexivity. Qed.

Lemma star_greedy_total (ok : N -> bool) (k : cont)
    (cs : list (nat * jsstring)) :
  (forall c, ok c = isSpace c) -> (forall st, k st <> None) ->
  forall s p, exists q,
    star_greedy ok k p cs s
    = k {| pos := q; rest := trimStart s; caps := cs |}.
Proof.
  intros Hok Hk. induction s as [|c s IH]; intros p; simpl.
  - now exists p.
  - rewrite Hok. destruct (isSpace c).
    + destruct (IH (S p)) as [q ->]. exists q.
      destruct (k {| pos := q; rest := trimStart s; caps := cs |}) eqn:E;
        [reflexivity|]. now apply Hk in E.
    + now exists p.
Qed.

Lemma m_spaces (st : mstate) :
  exists q, m fl_g (RStar ASpace) Some st
            = Some {| pos := q; rest := trimStart (rest st);
                      caps := caps st |}.
Proof.
  simpl. apply star_greedy_total; [reflexivity | discriminate].
Qed.

Lemma m_opt_colon (k : cont) (st : mstate) :
  (forall st', k st' <> None) ->
  exists q, m fl_g (ROpt (lit_char ":")) k st
            = k {| pos := q; rest := drop_colon (rest st); caps := caps st |}.
Proof.
  intros Hk. destruct st as [p s cs]. unfold lit_char.
  cbn [m pos rest caps].
  destruct s as [|c s]; [now exists p|].
  change (atom_ok fl_g (ALit (ch ":")) c) with (c =? 58)%N.
  cbn [drop_colon].
  destruct (c =? 58)%N; cbn [orElse]; [|now exists p].
  assert (E : (S p =? p) = false) by (apply Nat.eqb_neq; lia).
  rewrite E. exists (S p).
  destruct (k {| pos := S p; rest := s; caps := cs |}) eqn:Ek;
    [reflexivity|]. now apply Hk in Ek.
Qed.

Lemma m_label_tail (st : mstate) :
  exists q, m fl_g label_tail Some st
            = Some {| pos := q; rest := after_label (rest st);
                      caps := caps st |}.
Proof.
  assert (H3 : forall st', m fl_g (RStar ASpace) Some st' <> None).
  { intros st'. destruct (m_spaces st') as [q ->]. discriminate. }
  assert (H2 : forall st',
             m fl_g (RCat (ROpt (lit_char ":")) (RStar ASpace)) Some st'
             <> None).
  { intros st'. rewrite m_cat.
    destruct (m_opt_colon (m fl_g (RStar ASpace) Some) st' H3) as [q ->].
    apply H3. }
  unfold label_tail. rewrite m_cat, m_star.
  destruct (star_greedy_total (atom_ok fl_g ASpace)
              (m fl_g (RCat (ROpt (lit_char ":")) (RStar ASpace)) Some)
              (caps st) (fun c => eq_refl) H2 (rest st) (pos st)) as [q1 ->].
  rewrite m_cat.
  destruct (m_opt_colon (m fl_g (RStar ASpace) Some)
              {| pos := q1; rest := trimStart (rest st); caps := caps st |}
              H3) as [q2 ->].
  cbn [pos rest caps].
  destruct (m_spaces {| pos := q2; rest := drop_colon (trimStart (rest st));
                        caps := caps st |}) as [q3 ->].
  now exists q3.
Qed.

(** The header pattern matches at index 0 exactly when the string starts
    with a bold label on one line; the match ends after the white space and
    the optional colon that follow the label. *)
Lemma match_at_head (s : jsstring) :
  match span (skipn 2 s) with
  | Some (X, r) =>
    if startsWith (js "**") s
    then exists e, match_at re_head 0 s = Some e /\ rest e = after_label r
    else match_at re_head 0 s = None
  | None => match_at re_head 0 s = None
  end.
Proof.
  unfold match_at.
  change (source re_head)
    with (RCat RBol (RCat (rlit (js "**"))
            (RCat (RLazyStar ADot) (RCat (rlit (js "**")) label_tail)))).
  cbn [flag re_head]. rewrite m_cat, m_bol. cbn [pos Nat.eqb].
  rewrite m_cat, (m_stars fl_g _ _ eq_refl). cbn [pos rest caps].
  set (F := fun (q : nat) (t : jsstring) =>
              match m fl_g label_tail Some
                      {| pos := S (S q); rest := skipn 2 t; caps := [] |} with
              | Some e => e
              | None => {| pos := 0; rest := []; caps := [] |}
              end).
  assert (HF : forall q t,
             m fl_g (RCat (rlit (js "**")) label_tail) Some
               {| pos := q; rest := t; caps := [] |}
             = if startsWith (js "**") t then Some (F q t) else None).
  { intros q t. rewrite m_cat, (m_stars fl_g _ _ eq_refl).
    cbn [pos rest caps]. destruct (startsWith (js "**") t); [|reflexivity].
    unfold F.
    destruct (m_label_tail {| pos := S (S q); rest := skipn 2 t; caps := [] |})
      as [q' ->]. reflexivity. }
  destruct (startsWith (js "**") s);
    [|now destruct (span (skipn 2 s)) as [[? ?]|]].
  rewrite m_cat, m_lazy. cbn [pos rest caps].
  rewrite (star_lazy_span _ [] F HF).
  destruct (span (skipn 2 s)) as [[X r]|]; [|reflexivity].
  eexists; split; [reflexivity|].
  unfold F. change (skipn 2 (js "**" ++ r)) with r.
  destruct (m_label_tail
              {| pos := S (S (2 + List.length X)); rest := r; caps := [] |})
    as [q' E].
  now rewrite E.
Qed.

(** The header-stripping step. *)
Lemma replace_head (s : jsstring) :
  replace re_head subst_empty s
  = if startsWith (js "**") s
    then match span (skipn 2 s) with
         | Some (X, r) => after_label r
         | None => s
         end
    else s.
Proof.
  rewrite (replace_anchored re_head subst_empty eq_refl).
  pose proof (match_at_head s) as H.
  destruct (span (skipn 2 s)) as [[X r]|].
  - destruct (startsWith (js "**") s).
    + destruct H as [e [-> He]]. now rewrite He.
    + now rewrite H.
  - rewrite H. now destruct (startsWith (js "**") s).
Qed.

Lemma replace_head_fixed (s : jsstring) :
  opens s = false -> replace re_head subst_empty s = s.
Proof.
  unfold opens, closes. rewrite replace_head.
  destruct (startsWith (js "**") s); [|reflexivity].
  now destruct (span (skipn 2 s)) as [[? ?]|].
Qed.

End HeaderPattern.

(** ** The clean-up of the working text *)

Section CleanUp.

Lemma cleanUp_unbold (w : jsstring) :
  cleanUp w = trim (unbold 0 (replace re_head subst_empty w)).
Proof. reflexivity. Qed.

Lemma cleanUp_no_pair (w : jsstring) : has_pair (cleanUp w) = false.
Proof. rewrite cleanUp_unbold. apply has_pair_trim, unbold_no_pair. Qed.

Lemma has_pair_opens (s : jsstring) : has_pair s = false -> opens s = false.
Proof.
  destruct s as [|c s]; [reflexivity|].
  rewrite has_pair_cons. intros H. now apply orb_false_iff in H.
Qed.

Lemma cleanUp_fixed (a : jsstring) :
  has_pair a = false -> trim a = a -> cleanUp a = a.
Proof.
  intros Hp Ht. rewrite cleanUp_unbold.
  rewrite (replace_head_fixed _ (has_pair_opens _ Hp)).
  now rewrite (unbold_fixed _ Hp).
Qed.

(** The clean-up is idempotent. *)
Lemma cleanUp_idem (w : jsstring) : cleanUp (cleanUp w) = cleanUp w.
Proof.
  apply cleanUp_fixed; [apply cleanUp_no_pair|].
  rewrite cleanUp_unbold. apply trim_idem.
Qed.

(** C3 (the claim as stated fails): the splitter strips one preamble per
    call, so splitting "Based on A. Based on B. C." gives the answer
    "Based on B. C." and splitting that again gives "C.". *)
Lemma resplit_changes_answer :
  separateCommentAndAnswer double_preamble_example
  = Some {| comment := js "Based on A."; answer := js "Based on B. C." |}
  /\ separateCommentAndAnswer (js "Based on B. C.")
     = Some {| comment := js "Based on B."; answer := js "C." |}
  /\ js "C." <> js "Based on B. C.".
Proof.
  split; [|split].
  - vm_compute. reflexivity.
  - vm_compute. reflexivity.
  - vm_compute. discriminate.
Qed.

End CleanUp.

Section CleanAnswer.



(** A header that follows leading white space is not at the start of the
    working text: its markers are unwrapped and the label stays. *)
Example indented_label_kept :
  separateCommentAndAnswer (js " **Hinweis**: bereit")
  = Some {| comment := js ""; answer := js "Hinweis: bereit" |}.
Proof. vm_compute. reflexivity. Qed.

Example bold_label_removed :
  separateCommentAndAnswer (js "**Hinweis**: Das **System** ist bereit.")
  = Some {| comment := js ""; answer := js "Das System ist bereit." |}.
Proof. vm_compute. reflexivity. Qed.


End CleanAnswer.

(** ** The source list of the Excel export *)

Section ExcelSources.

Lemma map_index_nth {A B : Type} (f : A -> nat -> B) (l : list A) :
  forall i k x, nth_error l i = Some x ->
  nth_error (map_index f k l) i = Some (f x (k + i)).
Proof.
  induction l as [|a l IH]; intros [|i] k x H; try discriminate.
  - injection H as ->. simpl. now rewrite Nat.add_0_r.
  - simpl in H |- *. rewrite (IH i (S k) x H). f_equal. f_equal. lia.
Qed.

Lemma map_index_length {A B : Type} (f : A -> nat -> B) (l : list A) :
  forall k, List.length (map_index f k l) = List.length l.
Proof. induction l as [|a l IH]; intros k; simpl; auto. Qed.

Lemma entries_not_placeholder (a : Source) (l : list Source) :
  join (js " | ") (map_index source_entry 0 (a :: l)) <> js "Keine Quellen".
Proof.
  cbn [map_index]. unfold source_entry at 1.
  change (js "Source ") with (83%N :: js "ource ").
  change (js "Keine Quellen") with (75%N :: js "eine Quellen").
  destruct (map_index source_entry 1 l); simpl; discriminate.
Qed.

Example two_sources :
  formatSourcesForExcel
    (Some [ {| question_text := js "Was kostet die Lösung?" |};
            {| question_text := repeat 97%N 101 |} ])
  = js "Source 1: Was kostet die Lösung? | Source 2: "
    ++ repeat 97%N 100 ++ js "...".
Proof. vm_compute. reflexivity. Qed.

(** C10: [formatSourcesForExcel] returns "Keine Quellen" exactly when the
    list is null or empty. Otherwise it returns the entries joined by " | ",
    one per source, the i-th being "Source i: " followed by the first 100
    code units of the question text and by "..." exactly when the question
    text is longer than 100 code units. *)
Theorem formatSourcesForExcel_spec :
  (forall sources,
     formatSourcesForExcel sources = js "Keine Quellen"
     <-> sources = None \/ sources = Some [])
  /\ (forall l, l <> [] ->
      exists entries,
        formatSourcesForExcel (Some l) = join (js " | ") entries
        /\ List.length entries = List.length l
        /\ forall i src, nth_error l i = Some src ->
           nth_error entries i
           = Some (js "Source " ++ number_to_string (i + 1) ++ js ": "
                   ++ firstn 100 (question_text src)
                   ++ (if 100 <? List.length (question_text src)
                       then js "..." else js ""))).
Proof.
  split.
  - intros [[|a l]|]; split; auto.
    + intros H. now apply entries_not_placeholder in H.
    + intros [H|H]; discriminate.
  - intros [|a l] Hl; [congruence|].
    exists (map_index source_entry 0 (a :: l)). repeat split.
    + apply map_index_length.
    + intros i src H. now rewrite (map_index_nth source_entry _ i 0 src H).
Qed.

Lemma formatSourcesForExcel_witness :
  exists entries,
    formatSourcesForExcel (Some [ {| question_text := js "Was kostet es?" |} ])
    = join (js " | ") entries
    /\ nth_error entries 0 = Some (js "Source 1: Was kostet es?").
Proof.
  destruct (proj2 formatSourcesForExcel_spec
              [ {| question_text := js "Was kostet es?" |} ])
    as [entries [H [_ Hn]]].
  - discriminate.
  - exists entries. split; [exact H|].
    rewrite (Hn 0 {| question_text := js "Was kostet es?" |} eq_refl).
    vm_compute. reflexivity.
Defined.

End ExcelSources.

(** * Further properties of the utilities *)

(** ** The splitter on arbitrary input *)

Section SplitterAlways.

(** X1: [separateCommentAndAnswer] never raises: group 1 takes part in every
    match of every pattern of the library, so [trim] is never called on
    [undefined], and every string has a result. *)
Theorem splitter_never_raises (x : jsstring) :
  exists r, separateCommentAndAnswer x = Some r.
Proof.
  destruct (separate_total x) as [w [cs [_ [H _]]]]. eexists. exact H.
Qed.

(** X2: the clean-up of the working text is idempotent: removing the header
    and the bold markers and trimming a second time changes nothing. *)
Theorem cleanUp_twice (w : jsstring) : cleanUp (cleanUp w) = cleanUp w.
Proof.
  apply cleanUp_fixed.
  - apply cleanUp_no_pair.
  - rewrite cleanUp_unbold. apply trim_idem.
Qed.

Lemma trim_ends (s : jsstring) :
  match trim s with [] => True | c :: _ => isSpace c = false end
  /\ match rev (trim s) with [] => True | c :: _ => isSpace c = false end.
Proof.
  split.
  - unfold trim. rewrite <- (trimStart_trimEnd _ (trimStart_idem s)).
    apply trimStart_head.
  - unfold trim, trimEnd. rewrite rev_involutive. apply trimStart_head.
Qed.

(** X3: the returned clean answer never begins or ends with white space. *)
Theorem answer_has_no_outer_space (x : jsstring) :
  exists r, separateCommentAndAnswer x = Some r
    /\ match answer r with [] => True | c :: _ => isSpace c = false end
    /\ match rev (answer r) with [] => True | c :: _ => isSpace c = false end.
Proof.
  destruct (separate_total x) as [w [cs [_ [H _]]]].
  eexists; split; [exact H|]. cbn [answer]. apply trim_ends.
Qed.

Lemma match_at_space_head (pt : pattern) (p : nat) (c : N) (s : jsstring) :
  space_safe pt = true -> isSpace c = true -> match_at pt p (c :: s) = None.
Proof.
  intros Hs Hc. unfold match_at.
  destruct (first_lit (source pt)) as [l|] eqn:Ef;
    [|unfold space_safe in Hs; now rewrite Ef in Hs].
  apply (m_first_lit _ _ _ Ef). simpl.
  eapply space_safe_head; eauto.
Qed.

(** X4: leading white space disables the whole library. When the input
    starts with a white-space code unit no pattern matches, so the comment
    is empty; the header pattern of the clean-up does not match either, so
    the answer is the input with its bold spans unwrapped, trimmed. *)
Theorem leading_space_disables_patterns (c : N) (x : jsstring) :
  isSpace c = true ->
  separateCommentAndAnswer (c :: x)
  = Some {| comment := js "";
            answer := trim (replace re_bold subst_group1 (c :: x)) |}.
Proof.
  intros Hc. rewrite separate_no_match.
  - unfold cleanUp. rewrite replace_head.
    rewrite startsWith_stars_cons.
    destruct (N.eqb_spec c 42) as [->|]; [discriminate|]. reflexivity.
  - intros q Hq.
    pose proof (proj1 (forallb_forall _ _) library_anchored q Hq) as Ha.
    pose proof (proj1 (forallb_forall _ _) library_space_safe q Hq) as Hs.
    rewrite (str_match_anchored q _ Ha). now apply match_at_space_head.
Qed.

Lemma leading_space_disables_patterns_witness :
  separateCommentAndAnswer (10%N :: js "Based on the data: yes.")
  = Some {| comment := js "";
            answer := trim (replace re_bold subst_group1
                              (10%N :: js "Based on the data: yes.")) |}.
Proof.
  apply (leading_space_disables_patterns 10 (js "Based on the data: yes.")).
  reflexivity.
Defined.

(** X5: plain text passes through. A string that no pattern matches, that
    holds no bold span on a single line and that is already trimmed is
    returned unchanged as the answer, with an empty comment. *)
Theorem plain_text_unchanged (x : jsstring) :
  (forall p, In p commentPatterns -> str_match p x = None) ->
  ~ has_bold_span x ->
  trim x = x ->
  separateCommentAndAnswer x = Some {| comment := js ""; answer := x |}.
Proof.
  intros Hnone Hb Ht. rewrite (separate_no_match x Hnone).
  rewrite cleanUp_fixed; auto.
  destruct (has_pair x) eqn:E; [|reflexivity].
  now apply has_pair_iff in E.
Qed.

Lemma plain_text_unchanged_witness :
  separateCommentAndAnswer (js "Preis: 5 * 3 = 15 EUR")
  = Some {| comment := js ""; answer := js "Preis: 5 * 3 = 15 EUR" |}.
Proof.
  apply (plain_text_unchanged (js "Preis: 5 * 3 = 15 EUR")).
  - intros p Hp.
    repeat (destruct Hp as [<-|Hp]; [vm_compute; reflexivity|]).
    destruct Hp.
  - intros Hb. apply has_pair_iff in Hb. vm_compute in Hb. discriminate.
  - vm_compute. reflexivity.
Defined.

End SplitterAlways.

(** ** Order of the bands *)

Section BandOrder.

Import SpecFloat.

Lemma SFleb_trans (x y z : spec_float) :
  SFleb x y = true -> SFleb y z = true -> SFleb x z = true.
Proof.
  unfold SFleb.
  destruct x as [s1|s1| |s1 m1 e1], y as [s2|s2| |s2 m2 e2],
           z as [s3|s3| |s3 m3 e3]; simpl;
    try destruct s1; try destruct s2; try destruct s3;
    try reflexivity; try discriminate;
    change (Pos.compare_cont Eq m1 m2) with (m1 ?= m2)%positive;
    change (Pos.compare_cont Eq m2 m3) with (m2 ?= m3)%positive;
    change (Pos.compare_cont Eq m1 m3) with (m1 ?= m3)%positive;
    destruct (Z.compare_spec e1 e2); try discriminate;
    destruct (Z.compare_spec e2 e3); try discriminate;
    destruct (Z.compare_spec e1 e3); try reflexivity; try lia;
    destruct (Pos.compare_spec m1 m2); try discriminate;
    destruct (Pos.compare_spec m2 m3); try discriminate;
    destruct (Pos.compare_spec m1 m3); simpl; try reflexivity; try lia;
    intros; discriminate.
Qed.

Lemma leb_trans (x y z : float) :
  (x <=? y)%float = true -> (y <=? z)%float = true ->
  (x <=? z)%float = true.
Proof. rewrite !leb_spec. apply SFleb_trans. Qed.

#[local] Abbreviation high := (js "high").
#[local] Abbreviation low := (js "low").

Lemma band_monotone (hi lo a b : float) :
  (a <=? b)%float = true ->
  let band s := if (hi <=? s)%float then high
                else if (lo <=? s)%float then js "medium" else low in
  (band a = high -> band b = high) /\ (band b = low -> band a = low).
Proof.
  intros Hab band. subst band. cbv beta.
  pose proof (fun H => leb_trans hi a b H Hab) as Th.
  pose proof (fun H => leb_trans lo a b H Hab) as Tl.
  destruct (hi <=? a)%float, (lo <=? a)%float;
    try rewrite (Th eq_refl); try rewrite (Tl eq_refl);
    destruct (hi <=? b)%float, (lo <=? b)%float;
    split; intros H; try reflexivity; try exact H;
    try (vm_compute in H; discriminate).
Qed.

(** X6: the bands are monotone in the score. When [a <= b], a score [a]
    classified "high" makes [b] "high", and a score [b] classified "low"
    makes [a] "low"; this holds for [getConfidenceClass] and for
    [getFuzzyClass]. *)
Theorem bands_monotone (a b : float) :
  (a <=? b)%float = true ->
  (getConfidenceClass a = high -> getConfidenceClass b = high)
  /\ (getConfidenceClass b = low -> getConfidenceClass a = low)
  /\ (getFuzzyClass a = high -> getFuzzyClass b = high)
  /\ (getFuzzyClass b = low -> getFuzzyClass a = low).
Proof.
  intros Hab.
  destruct (band_monotone 0.7 0.4 a b Hab) as [H1 H2].
  destruct (band_monotone 0.8 0.6 a b Hab) as [H3 H4].
  repeat split; assumption.
Qed.

Lemma bands_monotone_witness :
  (getConfidenceClass 0.72 = high -> getConfidenceClass 0.9 = high)
  /\ (getConfidenceClass 0.9 = low -> getConfidenceClass 0.72 = low)
  /\ (getFuzzyClass 0.72 = high -> getFuzzyClass 0.9 = high)
  /\ (getFuzzyClass 0.9 = low -> getFuzzyClass 0.72 = low).
Proof. apply (bands_monotone 0.72 0.9). reflexivity. Defined.

(** X7: the lexical bands are the stricter ones. A score that
    [getFuzzyClass] calls "high" is "high" for [getConfidenceClass] too, and
    a score that [getConfidenceClass] calls "low" is "low" for
    [getFuzzyClass]. *)
Theorem fuzzy_stricter_than_confidence (score : float) :
  (getFuzzyClass score = high -> getConfidenceClass score = high)
  /\ (getConfidenceClass score = low -> getFuzzyClass score = low).
Proof.
  unfold getFuzzyClass, getConfidenceClass.
  pose proof (leb_trans 0.7 0.8 score eq_refl) as T1.
  pose proof (leb_trans 0.4 0.6 score eq_refl) as T2.
  destruct (0.8 <=? score)%float; try rewrite (T1 eq_refl);
    destruct (0.6 <=? score)%float; try rewrite (T2 eq_refl);
    destruct (0.7 <=? score)%float; destruct (0.4 <=? score)%float;
    split; intros H; try reflexivity; try exact H;
    try (vm_compute in H; discriminate).
Qed.

End BandOrder.

(** ** Commentary and header patterns with a literal prefix *)

Section LiteralPatterns.

Variable f : flags.
Hypothesis f_case : ignoreCase f = false.
Hypothesis f_dotAll : dotAll f = true.

Lemma m_rlit (L : jsstring) (k : cont) :
  forall p s cs,
    m f (rlit L) k {| pos := p; rest := s; caps := cs |}
    = if startsWith L s
      then k {| pos := p + List.length L; rest := skipn (List.length L) s;
                caps := cs |}
      else None.
Proof.
  induction L as [|a L IH]; intros p s cs.
  - simpl. now rewrite Nat.add_0_r.
  - cbn [rlit]. rewrite m_cat. cbn [m pos rest caps atom_ok].
    rewrite f_case. destruct s as [|c s]; [reflexivity|].
    cbn [startsWith List.length skipn].
    destruct (c =? a)%N; [|reflexivity]. cbn [andb].
    rewrite IH. now rewrite Nat.add_succ_r.
Qed.

Lemma startsWith_skipn (L s : jsstring) :
  startsWith L s = true -> s = L ++ skipn (List.length L) s.
Proof.
  revert s. induction L as [|a L IH]; intros [|c s] H; try discriminate;
    try reflexivity.
  cbn [startsWith] in H. apply andb_prop in H. destruct H as [Hc H].
  apply N.eqb_eq in Hc. subst c. cbn [List.length skipn app].
  f_equal. now apply IH.
Qed.

Lemma cut_sound (t : jsstring) :
  forall g r, cut t = Some (g, r) ->
  exists mid c, g = mid ++ [c] /\ t = g ++ r /\ is_stop c = true
    /\ forallb (fun d => negb (is_stop d)) mid = true.
Proof.
  induction t as [|c t IH]; intros g r H; [discriminate|].
  cbn [cut] in H. destruct (is_stop c) eqn:Ec.
  - injection H as <- <-. exists [], c. auto.
  - destruct (cut t) as [[g' r']|]; [|discriminate].
    injection H as <- <-.
    destruct (IH _ _ eq_refl) as [mid [d [-> [-> [Hd Hm]]]]].
    exists (c :: mid), d. repeat split; auto.
    simpl. now rewrite Ec.
Qed.

Lemma m_stop (k : cont) (p : nat) (t : jsstring)
    (cs : list (nat * jsstring)) :
  m f (RAlt (lit_char ".") (lit_char ":")) k
    {| pos := p; rest := t; caps := cs |}
  = match t with
    | [] => None
    | c :: t' =>
      if is_stop c then k {| pos := S p; rest := t'; caps := cs |} else None
    end.
Proof.
  unfold lit_char. cbn [m pos rest caps atom_ok]. rewrite f_case.
  destruct t as [|c t']; [reflexivity|]. unfold is_stop.
  change (ch ".") with 46%N. change (ch ":") with 58%N.
  destruct (c =? 46)%N; cbn [orElse orb].
  - destruct (k _); [reflexivity|]. now destruct (c =? 58)%N.
  - reflexivity.
Qed.

(** The lazy [.*?] in front of [(?:\.|:)] stops at the first full stop or
    colon, provided the rest of the pattern cannot fail. *)
Lemma star_lazy_cut (k : cont) (cs : list (nat * jsstring))
    (F : nat -> jsstring -> mstate) :
  (forall q t, k {| pos := q; rest := t; caps := cs |} = Some (F q t)) ->
  forall t p,
    star_lazy (atom_ok f ADot)
      (m f (RAlt (lit_char ".") (lit_char ":")) k) p cs t
    = match cut t with
      | Some (g, r) => Some (F (p + List.length g) r)
      | None => None
      end.
Proof.
  intros Hk. induction t as [|c t IH]; intros p;
    rewrite star_lazy_eq, m_stop.
  - reflexivity.
  - cbn [cut]. destruct (is_stop c).
    + rewrite Hk. cbn [orElse List.length]. now rewrite Nat.add_1_r.
    + cbn [orElse atom_ok]. rewrite f_dotAll. cbn [orb].
      rewrite IH. destruct (cut t) as [[g r]|]; [|reflexivity].
      cbn [List.length]. now rewrite Nat.add_succ_r.
Qed.

Lemma star_greedy_all (ok : N -> bool) (k : cont)
    (cs : list (nat * jsstring)) :
  (forall c, ok c = true) -> (forall st, k st <> None) ->
  forall s p,
    star_greedy ok k p cs s
    = k {| pos := p + List.length s; rest := []; caps := cs |}.
Proof.
  intros Hok Hk. induction s as [|c s IH]; intros p; cbn [star_greedy].
  - cbn [List.length]. now rewrite Nat.add_0_r.
  - rewrite Hok, IH. cbn [List.length]. rewrite Nat.add_succ_r.
    destruct (k _) eqn:E; [reflexivity|]. now apply Hk in E.
Qed.

(** The greedy group at the end of a pattern takes all that is left. *)
Lemma m_group_all (n p : nat) (s : jsstring) (cs : list (nat * jsstring)) :
  m f (RGroup n (RStar ADot)) Some {| pos := p; rest := s; caps := cs |}
  = Some {| pos := p + List.length s; rest := []; caps := (n, s) :: cs |}.
Proof.
  cbn [m pos rest caps]. rewrite star_greedy_all.
  - cbn [pos rest caps]. do 2 f_equal.
    replace (p + List.length s - p) with (List.length s) by lia.
    now rewrite firstn_all.
  - intros c. cbn [atom_ok]. now rewrite f_dotAll.
  - discriminate.
Qed.

Lemma m_opt_colon_any (k : cont) (st : mstate) :
  (forall st', k st' <> None) ->
  exists q, m f (ROpt (lit_char ":")) k st
            = k {| pos := q; rest := drop_colon (rest st); caps := caps st |}.
Proof.
  intros Hk. destruct st as [p s cs]. unfold lit_char.
  cbn [m pos rest caps].
  destruct s as [|c s]; [now exists p|].
  cbn [atom_ok]. rewrite f_case. change (ch ":") with 58%N.
  cbn [drop_colon].
  destruct (c =? 58)%N; cbn [orElse]; [|now exists p].
  assert (E : (S p =? p) = false) by (apply Nat.eqb_neq; lia).
  rewrite E. exists (S p).
  destruct (k {| pos := S p; rest := s; caps := cs |}) eqn:Ek;
    [reflexivity|]. now apply Hk in Ek.
Qed.

(** White space, an optional colon and white space again are skipped in
    front of a continuation that cannot fail. *)
Lemma m_label_tail_any (k : cont) (st : mstate) :
  (forall st', k st' <> None) ->
  exists q, m f label_tail k st
            = k {| pos := q; rest := after_label (rest st); caps := caps st |}.
Proof.
  intros Hk.
  assert (H3 : forall st', m f (RStar ASpace) k st' <> None).
  { intros st'. rewrite m_star.
    destruct (star_greedy_total (atom_ok f ASpace) k (caps st')
                (fun c => eq_refl) Hk (rest st') (pos st')) as [q ->].
    apply Hk. }
  assert (H2 : forall st',
             m f (RCat (ROpt (lit_char ":")) (RStar ASpace)) k st' <> None).
  { intros st'. rewrite m_cat.
    destruct (m_opt_colon_any (m f (RStar ASpace) k) st' H3) as [q ->].
    apply H3. }
  unfold label_tail. rewrite m_cat, m_star.
  destruct (star_greedy_total (atom_ok f ASpace)
              (m f (RCat (ROpt (lit_char ":")) (RStar ASpace)) k)
              (caps st) (fun c => eq_refl) H2 (rest st) (pos st)) as [q1 ->].
  rewrite m_cat.
  destruct (m_opt_colon_any (m f (RStar ASpace) k)
              {| pos := q1; rest := trimStart (rest st); caps := caps st |}
              H3) as [q2 ->].
  cbn [pos rest caps]. rewrite m_star. cbn [pos rest caps].
  destruct (star_greedy_total (atom_ok f ASpace) k (caps st)
              (fun c => eq_refl) Hk
              (drop_colon (trimStart (rest st))) q2) as [q3 ->].
  now exists q3.
Qed.

(** A header pattern with a literal label matches the inputs that start
    with the label; its group holds what follows the label, the white space
    and the optional colon. *)
Lemma match_at_header (L x : jsstring) :
  exists q,
    match_at {| source := header (rlit L); flag := f |} 0 x
    = if startsWith L x
      then Some {| pos := q; rest := [];
                   caps := [(1, after_label (skipn (List.length L) x))] |}
      else None.
Proof.
  unfold match_at. cbn [source flag].
  change (header (rlit L))
    with (RCat RBol (RCat (rlit L)
            (RCat (RStar ASpace) (RCat (ROpt (lit_char ":"))
               (RCat (RStar ASpace) (RGroup 1 (RStar ADot))))))).
  rewrite m_cat, m_bol. cbn [pos Nat.eqb]. rewrite m_cat, m_rlit.
  destruct (startsWith L x); [|now exists 0].
  change (m f (RCat (RStar ASpace) (RCat (ROpt (lit_char ":"))
            (RCat (RStar ASpace) (RGroup 1 (RStar ADot))))) Some)
    with (m f label_tail (m f (RGroup 1 (RStar ADot)) Some)).
  destruct (m_label_tail_any (m f (RGroup 1 (RStar ADot)) Some)
              {| pos := 0 + List.length L; rest := skipn (List.length L) x;
                 caps := [] |}) as [q ->].
  - intros [p s cs]. rewrite m_group_all. discriminate.
  - cbn [pos rest caps]. rewrite m_group_all. eexists. reflexivity.
Qed.

(** A commentary pattern with a literal prefix matches the inputs that
    start with the prefix and hold a full stop or a colon after it; group 1
    ends at the first of them and group 2 holds what follows, without the
    white space in front. *)
Lemma m_group (n : nat) (r : regex) (k : cont) (st : mstate) :
  m f (RGroup n r) k st
  = m f r (fun st' =>
             k {| pos := pos st'; rest := rest st';
                  caps := (n, firstn (pos st' - pos st) (rest st))
                            :: caps st' |}) st.
Proof. reflexivity. Qed.

Lemma m_preamble_tail (q : nat) (t : jsstring) (cs : list (nat * jsstring)) :
  exists q',
    m f (RCat (RStar ASpace) (RGroup 2 (RStar ADot))) Some
      {| pos := q; rest := t; caps := cs |}
    = Some {| pos := q'; rest := []; caps := (2, trimStart t) :: cs |}.
Proof.
  rewrite m_cat, m_star. cbn [pos rest caps].
  destruct (star_greedy_total (atom_ok f ASpace)
              (m f (RGroup 2 (RStar ADot)) Some) cs (fun c => eq_refl)
              (fun st => ltac:(destruct st; rewrite m_group_all;
                               discriminate)) t q) as [q1 ->].
  rewrite m_group_all. eexists. reflexivity.
Qed.

Lemma match_at_preamble (L x : jsstring) :
  exists q,
    match_at {| source := preamble (rlit L); flag := f |} 0 x
    = if startsWith L x
      then match cut (skipn (List.length L) x) with
           | Some (g, r) =>
             Some {| pos := q; rest := [];
                     caps := [(2, trimStart r); (1, L ++ g)] |}
           | None => None
           end
      else None.
Proof.
  unfold match_at. cbn [source flag].
  change (preamble (rlit L))
    with (RCat RBol
            (RCat (RGroup 1 (RCat (rlit L) (RCat (RLazyStar ADot)
                               (RAlt (lit_char ".") (lit_char ":")))))
               (RCat (RStar ASpace) (RGroup 2 (RStar ADot))))).
  rewrite m_cat, m_bol. cbn [pos Nat.eqb].
  rewrite m_cat, m_group, m_cat, m_rlit. cbn [pos rest caps].
  destruct (startsWith L x) eqn:Es; [|now exists 0].
  rewrite m_cat, m_lazy. cbn [pos rest caps].
  match goal with
  | |- context [m f (RAlt _ _) ?k] => set (K := k)
  end.
  assert (HK : forall q t,
             exists q', K {| pos := q; rest := t; caps := [] |}
                        = Some {| pos := q'; rest := [];
                                  caps := [(2, trimStart t);
                                           (1, firstn q x)] |}).
  { intros q t. unfold K. cbn [pos rest caps].
    destruct (m_preamble_tail q t [(1, firstn (q - 0) x)]) as [q' E].
    exists q'. etransitivity; [exact E|]. now rewrite Nat.sub_0_r. }
  set (F := fun (q : nat) (t : jsstring) =>
              match K {| pos := q; rest := t; caps := [] |} with
              | Some e => e
              | None => {| pos := 0; rest := []; caps := [] |}
              end).
  rewrite (star_lazy_cut K [] F).
  - destruct (cut (skipn (List.length L) x)) as [[g r]|] eqn:Ec;
      [|now exists 0].
    unfold F. destruct (HK (0 + List.length L + List.length g) r) as [q' ->].
    exists q'. do 4 f_equal.
    destruct (cut_sound _ _ _ Ec) as [_ [_ [_ [Hx _]]]].
    pose proof (startsWith_skipn _ _ Es) as Hs. rewrite Hx in Hs.
    rewrite Hs at 1. rewrite app_assoc.
    replace (0 + List.length L + List.length g)
      with (List.length (L ++ g) + 0) by (rewrite length_app; lia).
    now rewrite firstn_app_2, app_nil_r.
  - intros q t. unfold F. now destruct (HK q t) as [q' ->].
Qed.

End LiteralPatterns.

(** ** What the splitter returns after a literal pattern *)

Section LiteralSplits.

Lemma on_match_two (q : nat) (g1 g2 : jsstring) :
  g1 <> [] ->
  on_match {| pos := q; rest := []; caps := [(2, g2); (1, g1)] |} []
  = Some (match g2 with [] => trim g1 | _ :: _ => trim g2 end,
          match trim (replace re_stars subst_empty g1) with
          | [] => []
          | c :: cc => [c :: cc]
          end).
Proof.
  intros Hg. destruct g1 as [|a g1]; [congruence|].
  unfold on_match, capture. cbn [caps lookup Nat.eqb truthy].
  destruct g2; cbn [truthy option_map];
    destruct (trim (replace re_stars subst_empty (a :: g1))); reflexivity.
Qed.

Lemma trim_trimStart (r : jsstring) : trim (trimStart r) = trim r.
Proof. unfold trim. now rewrite trimStart_idem. Qed.

Lemma str_match_preamble (L x : jsstring) :
  exists q,
    str_match (s_ (preamble (rlit L))) x
    = if startsWith L x
      then match cut (skipn (List.length L) x) with
           | Some (g, r) =>
             Some {| pos := q; rest := [];
                     caps := [(2, trimStart r); (1, L ++ g)] |}
           | None => None
           end
      else None.
Proof.
  rewrite (str_match_anchored (s_ (preamble (rlit L))) x eq_refl).
  apply (match_at_preamble fl_s eq_refl eq_refl).
Qed.

Lemma str_match_header (L x : jsstring) :
  exists q,
    str_match (s_ (header (rlit L))) x
    = if startsWith L x
      then Some {| pos := q; rest := [];
                   caps := [(1, after_label (skipn (List.length L) x))] |}
      else None.
Proof.
  rewrite (str_match_anchored (s_ (header (rlit L))) x eq_refl).
  apply (match_at_header fl_s eq_refl eq_refl).
Qed.

(** X8: a commentary pattern with a literal prefix (the sixteen patterns
    from "Basierend auf" to "Looking at similar projects") matches exactly
    the inputs that start with the prefix and hold a full stop or a colon
    somewhere after it. *)
Theorem preamble_matches_iff (L x : jsstring) :
  str_match (s_ (preamble (rlit L))) x <> None
  <-> startsWith L x = true /\ cut (skipn (List.length L) x) <> None.
Proof.
  destruct (str_match_preamble L x) as [q ->].
  destruct (startsWith L x); [|split; [congruence | intros [H _]; discriminate]].
  destruct (cut (skipn (List.length L) x)) as [[g r]|]; split;
    try congruence; try (intros [_ H]; congruence).
  intros _. split; [reflexivity | discriminate].
Qed.

(** X9: the cut made by such a pattern. When it is the first pattern of the
    library to match, the input is [L ++ g ++ r] where [g] ends at the first
    full stop or colon after the prefix [L]; the comment is [L ++ g] without
    its "**" markers, trimmed, and the answer is the clean-up of [trim r],
    or of [trim (L ++ g)] when [r] holds white space only. *)
Theorem preamble_cut (x L g r : jsstring) (before after : list pattern) :
  commentPatterns = before ++ s_ (preamble (rlit L)) :: after ->
  (forall q, In q before -> str_match q x = None) ->
  startsWith L x = true ->
  cut (skipn (List.length L) x) = Some (g, r) ->
  x = L ++ g ++ r
  /\ separateCommentAndAnswer x
     = Some {| comment := trim (replace re_stars subst_empty (L ++ g));
               answer := cleanUp (match trimStart r with
                                  | [] => trim (L ++ g)
                                  | _ :: _ => trim r
                                  end) |}.
Proof.
  intros Hlib Hnone Hs Hc. split.
  - destruct (cut_sound _ _ _ Hc) as [_ [_ [_ [Hx _]]]].
    rewrite <- Hx. now apply startsWith_skipn.
  - unfold separateCommentAndAnswer, separateWith.
    rewrite Hlib, (loop_skips x before _ [] Hnone). cbn [loop].
    destruct (str_match_preamble L x) as [q ->]. rewrite Hs, Hc.
    assert (Hg : L ++ g <> []).
    { destruct (cut_sound _ _ _ Hc) as [mid [c [-> _]]].
      destruct L; [destruct mid|]; discriminate. }
    rewrite (on_match_two q _ _ Hg).
    assert (Hj : forall cc : jsstring,
               join (js " ") match cc with [] => [] | c :: t => [c :: t] end
               = cc) by (intros [|? ?]; reflexivity).
    rewrite Hj. do 3 f_equal.
    destruct (trimStart r) as [|c t] eqn:Er; [reflexivity|].
    now rewrite <- Er, trim_trimStart.
Qed.

Lemma preamble_cut_witness :
  js "Laut Vertrag v1.2: ja" = js "Laut" ++ js " Vertrag v1." ++ js "2: ja"
  /\ separateCommentAndAnswer (js "Laut Vertrag v1.2: ja")
     = Some {| comment := trim (replace re_stars subst_empty
                                  (js "Laut" ++ js " Vertrag v1."));
               answer := cleanUp (match trimStart (js "2: ja") with
                                  | [] => trim (js "Laut" ++ js " Vertrag v1.")
                                  | _ :: _ => trim (js "2: ja")
                                  end) |}.
Proof.
  apply (preamble_cut (js "Laut Vertrag v1.2: ja") (js "Laut")
           (js " Vertrag v1.") (js "2: ja")
           (firstn 2 commentPatterns) (skipn 3 commentPatterns)).
  - reflexivity.
  - intros q Hq.
    repeat (destruct Hq as [<-|Hq]; [vm_compute; reflexivity|]).
    destruct Hq.
  - reflexivity.
  - reflexivity.
Defined.

(** X10: a header pattern with a literal label (the eight patterns from
    "**Antwort**" to "Response") matches exactly the inputs that start with
    the label. When it is the first pattern to match, the answer is the
    clean-up of what follows the label, the white space and the optional
    colon. *)
Theorem header_answer (x L : jsstring) (before after : list pattern) :
  commentPatterns = before ++ s_ (header (rlit L)) :: after ->
  (forall q, In q before -> str_match q x = None) ->
  (str_match (s_ (header (rlit L))) x <> None <-> startsWith L x = true)
  /\ (startsWith L x = true ->
      exists c,
        separateCommentAndAnswer x
        = Some {| comment := c;
                  answer := cleanUp (trim (after_label
                                             (skipn (List.length L) x))) |}).
Proof.
  intros Hlib Hnone. destruct (str_match_header L x) as [q E]. split.
  - rewrite E. destruct (startsWith L x); split; congruence.
  - intros Hs. unfold separateCommentAndAnswer, separateWith.
    rewrite Hlib, (loop_skips x before _ [] Hnone). cbn [loop].
    rewrite E, Hs. unfold on_match, capture. cbn [caps lookup Nat.eqb].
    cbn [truthy option_map]. eexists. reflexivity.
Qed.

Lemma header_answer_witness :
  exists c,
    separateCommentAndAnswer (js "Lösung : **42** Tage")
    = Some {| comment := c;
              answer := cleanUp (trim (after_label
                                         (skipn (List.length (js "Lösung"))
                                            (js "Lösung : **42** Tage")))) |}.
Proof.
  refine (proj2 (header_answer (js "Lösung : **42** Tage") (js "Lösung")
                   (firstn 28 commentPatterns) (skipn 29 commentPatterns)
                   eq_refl _) eq_refl).
  intros q Hq.
  repeat (destruct Hq as [<-|Hq]; [vm_compute; reflexivity|]).
  destruct Hq.
Defined.

Example loesung_example :
  separateCommentAndAnswer (js "Lösung : **42** Tage")
  = Some {| comment := js "42 Tage"; answer := js "Tage" |}.
Proof. vm_compute. reflexivity. Qed.

End LiteralSplits.

(** ** The Excel export of the answers *)

Section ExportProperties.

Import Workbook.

Variable toFixed1 : float -> jsstring.
Variable isoNow : jsstring.
Variable currentQuestions : list jsstring.

Lemma separate_result_clean (x : jsstring) :
  exists r, separateCommentAndAnswer x = Some r
    /\ includes (js "**") (comment r) = false
    /\ trim (comment r) = comment r
    /\ ~ has_bold_span (Splitter.answer r)
    /\ trim (Splitter.answer r) = Splitter.answer r.
Proof.
  destruct (separate_total x) as [w [cs [_ [H Hcs]]]].
  eexists; split; [exact H|]. cbn [comment Splitter.answer].
  assert (Hc : includes (js "**") (join (js " ") cs) = false
               /\ trim (join (js " ") cs) = join (js " ") cs).
  { destruct Hcs as [->|[m1 ->]]; [split; reflexivity|].
    apply clean_comment_ok. }
  destruct Hc as [Hc1 Hc2]. repeat split; auto.
  - intros Hb. apply has_pair_iff in Hb. now rewrite cleanUp_no_pair in Hb.
  - rewrite cleanUp_unbold. apply trim_idem.
Qed.

(** The rows pushed for a list of answers: one per answer, in order. *)
Lemma pushRows_spec (answers : list Answer) :
  forall index,
  exists rows,
    pushRows toFixed1 currentQuestions index answers = Some rows
    /\ List.length rows = List.length answers
    /\ forall i a, nth_error answers i = Some a ->
       exists r,
         separateCommentAndAnswer (answer a) = Some r
         /\ nth_error rows i
            = Some [ nth_error currentQuestions (index + i);
                     Some (comment r);
                     Some (Splitter.answer r);
                     Some (toFixed1 (confidence_score a * 100)%float);
                     Some (toFixed1 (fuzzy_score a * 100)%float);
                     Some (formatSourcesForExcel (sources a)) ].
Proof.
  induction answers as [|a answers IH]; intros index.
  - exists []. repeat split. intros [|i] a H; discriminate.
  - cbn [pushRows].
    destruct (separate_result_clean (answer a)) as [r [Hr _]]. rewrite Hr.
    destruct (IH (S index)) as [rows [-> [Hl Hn]]].
    eexists; split; [reflexivity|]. split; [simpl; now rewrite Hl|].
    intros [|i] b H.
    + injection H as <-. exists r. split; [exact Hr|].
      simpl. now rewrite Nat.add_0_r.
    + destruct (Hn i b H) as [r' [Hr' Hrow]]. exists r'.
      split; [exact Hr'|]. simpl. rewrite Hrow. now rewrite Nat.add_succ_r.
Qed.


End ExportProperties.


Section ExportCells.

Import Workbook.

Lemma sources_placeholder_iff (s : option (list Source)) :
  formatSourcesForExcel s = js "Keine Quellen" <-> s = None \/ s = Some [].
Proof.
  destruct s as [[|a l]|]; split; auto.
  - intros H. now apply entries_not_placeholder in H.
  - intros [H|H]; discriminate.
Qed.

(** X12: every data row of the exported sheet is clean. For the i-th answer
    the first cell is the i-th question, [undefined] exactly when there are
    fewer questions than that; the comment cell holds no "**" and is
    trimmed; the answer cell holds no bold span on a single line and is
    trimmed; the sources cell is "Keine Quellen" exactly when the answer has
    no source list or an empty one. *)
Theorem export_cells_clean (toFixed1 : float -> jsstring)
    (isoNow : jsstring) (currentQuestions : list jsstring)
    (currentAnswers : list Answer) (rows : list row) (cols : list nat)
    (sheetName fileName message type : jsstring) :
  exportAnswers toFixed1 isoNow currentQuestions currentAnswers
  = Exported (header_row :: rows) cols sheetName fileName message type ->
  forall i a, nth_error currentAnswers i = Some a ->
  exists q c ans vd tp src,
    nth_error rows i = Some [q; Some c; Some ans; Some vd; Some tp; Some src]
    /\ q = nth_error currentQuestions i
    /\ (q = None <-> List.length currentQuestions <= i)
    /\ includes (js "**") c = false /\ trim c = c
    /\ ~ has_bold_span ans /\ trim ans = ans
    /\ (src = js "Keine Quellen" <-> sources a = None \/ sources a = Some []).
Proof.
  unfold exportAnswers. intros H i a Ha.
  destruct (List.length currentAnswers =? 0); [discriminate|].
  destruct (pushRows_spec toFixed1 currentQuestions currentAnswers 0)
    as [rows' [E [_ Hn]]].
  rewrite E in H. injection H as <- _ _ _ _ _.
  destruct (Hn i a Ha) as [r [Hr Hrow]].
  destruct (separate_result_clean (answer a)) as [r' [Hr' [C1 [C2 [A1 A2]]]]].
  rewrite Hr in Hr'. injection Hr' as <-.
  do 6 eexists. split; [exact Hrow|].
  repeat split; auto using sources_placeholder_iff.
  - apply nth_error_None.
  - apply nth_error_None.
  - apply sources_placeholder_iff.
  - apply sources_placeholder_iff.
Qed.

Lemma export_cells_clean_witness :
  exists q c ans vd tp src,
    nth_error [Samples.plan_row] 0
    = Some [q; Some c; Some ans; Some vd; Some tp; Some src]
    /\ q = nth_error [js "Wie lange?"] 0
    /\ (q = None <-> List.length [js "Wie lange?"] <= 0)
    /\ includes (js "**") c = false /\ trim c = c
    /\ ~ has_bold_span ans /\ trim ans = ans
    /\ (src = js "Keine Quellen"
        <-> sources Samples.plan_answer = None
            \/ sources Samples.plan_answer = Some []).
Proof.
  refine (export_cells_clean (fun _ => js "n.n")
            (js "2025-08-17T10:00:00.000Z") [js "Wie lange?"]
            [Samples.plan_answer] [Samples.plan_row] [40; 30; 50; 20; 20; 60]
            (js "Antworten auf Anfragen") (js "antworten_2025-08-17.xlsx")
            (js "Excel-Datei erfolgreich exportiert") (js "success")
            _ 0 Samples.plan_answer eq_refl).
  vm_compute. reflexivity.
Defined.

End ExportCells.

(** ** The results of processing the historical files *)

Section ProcessingProperties.

Import Processing.

Variable toFixed2 : float -> jsstring.

Lemma forEachResult_spec (results : list Result) :
  forall children totalPairs,
    forEachResult toFixed2 results children totalPairs
    = (children ++ map (resultDiv toFixed2) results,
       totalPairs + pairs_added results).
Proof.
  induction results as [|r results IH]; intros children totalPairs.
  - simpl. now rewrite app_nil_r, Nat.add_0_r.
  - cbn [forEachResult map pairs_added]. rewrite IH, <- app_assoc.
    cbn [app]. f_equal. destruct (is_success r); lia.
Qed.

(** X13: [displayProcessingResults] leaves one block per result in the
    container, in the order of the results, with a summary in front of them
    exactly when the files processed with success yielded at least one
    pair; the summary reports the sum over those files only, so a failed
    file adds nothing to it. *)
Theorem processing_results_blocks (results : list Result) :
  displayProcessingResults toFixed2 results
  = (if 0 <? pairs_added results
     then [summaryDiv (pairs_added results)] else [])
    ++ map (resultDiv toFixed2) results.
Proof.
  unfold displayProcessingResults. rewrite forEachResult_spec.
  cbn [app Nat.add]. now destruct (0 <? pairs_added results).
Qed.

End ProcessingProperties.

Example processing_two_files :
  map Processing.className
    (Processing.displayProcessingResults (fun _ => js "0.50")
       [ {| Processing.file_name := js "a.xlsx";
            Processing.status := js "success";
            Processing.qa_pairs_extracted := 12;
            Processing.processing_time := 0.5 |};
         {| Processing.file_name := js "b.pdf";
            Processing.status := js "Unsupported file";
            Processing.qa_pairs_extracted := 7;
            Processing.processing_time := 0.5 |} ])
  = [js "alert success"; js "alert success"; js "alert error"]
  /\ Processing.pairs_added
       [ {| Processing.file_name := js "a.xlsx";
            Processing.status := js "success";
            Processing.qa_pairs_extracted := 12;
            Processing.processing_time := 0.5 |};
         {| Processing.file_name := js "b.pdf";
            Processing.status := js "Unsupported file";
            Processing.qa_pairs_extracted := 7;
            Processing.processing_time := 0.5 |} ] = 12.
Proof. split; vm_compute; reflexivity. Qed.

(** ** The request handlers *)

Section TrimBlank.

Lemma trimStart_nil_spaces (s : jsstring) :
  trimStart s = [] -> forallb isSpace s = true.
Proof.
  induction s as [|c s IH]; [reflexivity|]. simpl.
  destruct (isSpace c); [exact IH | discriminate].
Qed.

Lemma forallb_rev {A : Type} (p : A -> bool) (l : list A) :
  forallb p (rev l) = forallb p l.
Proof.
  induction l as [|a l IH]; [reflexivity|].
  simpl. rewrite forallb_app, IH. simpl.
  now rewrite andb_true_r, andb_comm.
Qed.

(** [trim] gives the empty string exactly on white space. *)
Lemma trim_nil_iff (s : jsstring) :
  trim s = [] <-> forallb isSpace s = true.
Proof.
  split; [|apply trim_spaces].
  unfold trim, trimEnd. intros H.
  apply (f_equal (@rev N)) in H. rewrite rev_involutive in H. simpl in H.
  apply trimStart_nil_spaces in H. rewrite forallb_rev in H.
  pose proof (trimStart_head s) as Hh.
  destruct (trimStart s) as [|c t] eqn:E.
  - now apply trimStart_nil_spaces.
  - simpl in H. rewrite Hh in H. discriminate.
Qed.

Lemma truthy_trim (s : jsstring) :
  truthy (Some (trim s)) = negb (forallb isSpace s).
Proof.
  destruct (forallb isSpace s) eqn:E.
  - now rewrite (trim_spaces _ E).
  - destruct (trim s) eqn:Et; [|reflexivity].
    apply trim_nil_iff in Et. congruence.
Qed.

End TrimBlank.

Section HandlerProperties.

Import Requests.

Variable V : Type.
Variable fetch : request -> fetch_result V.
Variable display : V -> option jsstring.

(** The effects of the [try] block: the request, then at most one alert. *)
Lemma tryFetch_events (errorPrefix : jsstring) (r : request) :
  exists tail,
    fst (tryFetch V fetch display errorPrefix r) = Fetch V r :: tail
    /\ filter is_loading tail = []
    /\ filter is_fetch tail = []
    /\ List.length (filter is_alert tail) <= 1.
Proof.
  unfold tryFetch.
  destruct (fetch r) as [msg|[|] status [msg|v]]; cbn [negb fst];
    try destruct (display v);
    eexists; (split; [reflexivity|]); simpl; repeat split; lia.
Qed.

(** X14: [generateSingleAnswer] sends a request exactly when the question
    holds something other than white space. A blank question only gives the
    warning. Otherwise one request is sent, between showing and hiding the
    loading overlay; it carries the trimmed question, and the trimmed
    context when that is not blank: a blank context is sent as [null] in
    the JSON body and left out of the form. *)
Theorem single_answer_request (questionInput contextInput category : jsstring) :
  (forallb isSpace questionInput = true ->
   generateSingleAnswer V fetch display questionInput contextInput category
   = [ShowAlert V (js "Bitte geben Sie eine Frage ein") (js "warning")])
  /\ (forallb isSpace questionInput = false ->
      exists r tail,
        generateSingleAnswer V fetch display questionInput contextInput category
        = ShowLoading V :: Fetch V r :: tail ++ [HideLoading V]
        /\ filter is_loading tail = []
        /\ filter is_fetch tail = []
        /\ sent_question r = Some (trim questionInput)
        /\ sent_context r
           = (if forallb isSpace contextInput then None
              else Some (trim contextInput))).
Proof.
  unfold generateSingleAnswer. rewrite !truthy_trim. split; intros Hq;
    rewrite Hq; cbn [negb]; [reflexivity|].
  match goal with
  | |- context [tryFetch V fetch display ?p ?r] =>
      destruct (tryFetch_events p r) as [tail [E [H1 [H2 _]]]];
      exists r, tail; rewrite E
  end.
  repeat split; auto.
  - destruct (truthy (Some category)); reflexivity.
  - destruct (truthy (Some category)); cbn [sent_context payload];
      destruct (forallb isSpace contextInput); reflexivity.
Qed.

(** X15: the loading overlay is balanced and failures are reported once.
    A run of [generateSingleAnswer] or [generateAllAnswers] either touches
    neither the overlay nor the network, or it shows the overlay first,
    hides it last, sends exactly one request in between and shows at most
    one alert there, whatever the server answers and whether the display
    function raises. *)
Theorem handlers_balanced (questionInput contextInput category : jsstring)
    (currentQuestions : list jsstring) (currentAnswers : V) :
  let balanced (t : list (event V)) :=
    (filter is_loading t = [] /\ filter is_fetch t = [])
    \/ (exists mid,
          t = ShowLoading V :: mid ++ [HideLoading V]
          /\ filter is_loading mid = []
          /\ List.length (filter is_fetch mid) = 1
          /\ List.length (filter is_alert mid) <= 1) in
  balanced (generateSingleAnswer V fetch display questionInput contextInput
              category)
  /\ balanced (fst (generateAllAnswers V fetch display currentQuestions
                      currentAnswers)).
Proof.
  cbv zeta. split.
  - unfold generateSingleAnswer.
    destruct (negb (truthy (Some (trim questionInput))));
      [left; split; reflexivity|].
    right.
    match goal with
    | |- context [tryFetch V fetch display ?p ?r] =>
        destruct (tryFetch_events p r) as [tail [E [H1 [H2 H3]]]];
        exists (Fetch V r :: tail); rewrite E
    end.
    cbn [filter is_loading is_fetch is_alert app List.length].
    rewrite H1, H2. repeat split; auto.
  - unfold generateAllAnswers.
    destruct (List.length currentQuestions =? 0);
      [left; split; reflexivity|].
    right.
    match goal with
    | |- context [tryFetch V fetch display ?p ?r] =>
        destruct (tryFetch_events p r) as [tail [E [H1 [H2 H3]]]];
        destruct (tryFetch V fetch display p r) as [events received];
        cbn [fst] in E |- *; exists (Fetch V r :: tail); rewrite E
    end.
    cbn [filter is_loading is_fetch is_alert app List.length].
    rewrite H1, H2. repeat split; auto.
Qed.

(** X16: [generateAllAnswers] replaces the global [currentAnswers] exactly
    when the server answers with an [ok] response whose JSON can be read,
    and it does so before displaying: the answers stay stored even when
    displaying them raises and the error alert is shown. In every other run
    [currentAnswers] keeps its value. *)
Theorem all_answers_stored (currentQuestions : list jsstring)
    (currentAnswers : V) :
  let r := {| endpoint := js "/generate-answers";
              method := js "POST";
              headers := [(js "Content-Type", js "application/json")];
              payload := JsonQuestions currentQuestions |} in
  let after := snd (generateAllAnswers V fetch display currentQuestions
                      currentAnswers) in
  (currentQuestions = [] -> after = currentAnswers)
  /\ (currentQuestions <> [] ->
      match fetch r with
      | Response _ true _ (JsonValue _ answers) => after = answers
      | _ => after = currentAnswers
      end).
Proof.
  cbv zeta. unfold generateAllAnswers, tryFetch. split.
  - now intros ->.
  - intros Hne. destruct currentQuestions as [|q qs]; [congruence|].
    cbn [List.length Nat.eqb].
    destruct (fetch _) as [msg|[|] status [msg|v]]; cbn [negb snd];
      try reflexivity.
    now destruct (display v).
Qed.

End HandlerProperties.

Section HandlerWitnesses.

Import Requests.

Lemma single_answer_request_witness :
  exists r tail,
    generateSingleAnswer nat
      (fun _ => FetchRejected nat (js "Failed to fetch"))
      (fun _ : nat => None)
      (js "  Wie lange dauert die Lieferung? ") (js "   ") (js "timeline")
    = ShowLoading nat :: Fetch nat r :: tail ++ [HideLoading nat]
    /\ filter is_loading tail = []
    /\ filter is_fetch tail = []
    /\ sent_question r = Some (trim (js "  Wie lange dauert die Lieferung? "))
    /\ sent_context r
       = (if forallb isSpace (js "   ") then None else Some (trim (js "   "))).
Proof.
  apply (proj2 (single_answer_request nat
                  (fun _ => FetchRejected nat (js "Failed to fetch"))
                  (fun _ : nat => None)
                  (js "  Wie lange dauert die Lieferung? ") (js "   ")
                  (js "timeline"))).
  reflexivity.
Defined.

Lemma all_answers_stored_witness :
  match FetchRejected nat (js "Failed to fetch") with
  | Response _ true _ (JsonValue _ answers) =>
    snd (generateAllAnswers nat
           (fun _ => FetchRejected nat (js "Failed to fetch"))
           (fun _ => None) [js "Wie lange?"] 7) = answers
  | _ =>
    snd (generateAllAnswers nat
           (fun _ => FetchRejected nat (js "Failed to fetch"))
           (fun _ => None) [js "Wie lange?"] 7) = 7
  end.
Proof.
  apply (proj2 (all_answers_stored nat
                  (fun _ => FetchRejected nat (js "Failed to fetch"))
                  (fun _ => None) [js "Wie lange?"] 7)).
  discriminate.
Defined.

End HandlerWitnesses.

(** ** Ignore-case patterns *)

Section IgnoreCase.

Variable f : flags.
Hypothesis f_case : ignoreCase f = true.

Lemma canonicalize_cases (c : N) :
  (canonicalize c = c /\ ((c < 97)%N \/ (122 < c)%N))
  \/ (canonicalize c = (c - 32)%N /\ (97 <= c <= 122)%N).
Proof.
  unfold canonicalize.
  destruct (N.leb_spec 97 c); [|left; split; [reflexivity | lia]].
  destruct (N.leb_spec c 122); [right | left]; simpl; split; auto; lia.
Qed.

Lemma canonicalize_idem (c : N) :
  canonicalize (canonicalize c) = canonicalize c.
Proof.
  destruct (canonicalize_cases c) as [[E _]|[E Hc]]; rewrite E;
    [exact E|].
  destruct (canonicalize_cases (c - 32)) as [[E' _]|[_ H]]; [exact E' | lia].
Qed.

Lemma isLineTerminator_upper (c : N) :
  isLineTerminator (canonicalize c) = isLineTerminator c.
Proof.
  destruct (canonicalize_cases c) as [[E _]|[E Hc]]; rewrite E;
    [reflexivity|].
  unfold isLineTerminator.
  repeat match goal with
  | |- context [(?x =? ?n)%N] => destruct (N.eqb_spec x n); [lia|]
  end.
  reflexivity.
Qed.

Lemma isSpace_upper (c : N) : isSpace (canonicalize c) = isSpace c.
Proof.
  unfold isSpace. rewrite isLineTerminator_upper. f_equal.
  destruct (canonicalize_cases c) as [[E _]|[E Hc]]; rewrite E;
    [reflexivity|].
  unfold isWhiteSpace.
  repeat match goal with
  | |- context [(?x =? ?n)%N] => destruct (N.eqb_spec x n); [lia|]
  end.
  destruct (N.leb_spec 8192 (c - 32)); [lia|].
  destruct (N.leb_spec 8192 c); [lia|]. reflexivity.
Qed.

Lemma atom_ok_upper (a : atom) (c : N) :
  atom_ok f a (canonicalize c) = atom_ok f a c.
Proof.
  destruct a; simpl.
  - now rewrite f_case, canonicalize_idem.
  - now rewrite isLineTerminator_upper.
  - apply isSpace_upper.
Qed.

Lemma orElse_map (a b : option mstate) :
  option_map upper_state (orElse a b)
  = orElse (option_map upper_state a) (option_map upper_state b).
Proof. destruct a; reflexivity. Qed.

Lemma star_greedy_upper (a : atom) (k k' : cont)
    (cs : list (nat * jsstring)) :
  agree k k' ->
  forall s p,
    star_greedy (atom_ok f a) k' p
      (map (fun nv => (fst nv, upper (snd nv))) cs) (upper s)
    = option_map upper_state (star_greedy (atom_ok f a) k p cs s).
Proof.
  intros Hk. induction s as [|c s IH]; intros p.
  - apply (Hk {| pos := p; rest := []; caps := cs |}).
  - cbn [upper map star_greedy]. rewrite atom_ok_upper.
    destruct (atom_ok f a c).
    + rewrite orElse_map, <- IH.
      now rewrite <- (Hk {| pos := p; rest := c :: s; caps := cs |}).
    + apply (Hk {| pos := p; rest := c :: s; caps := cs |}).
Qed.

Lemma star_lazy_upper (a : atom) (k k' : cont)
    (cs : list (nat * jsstring)) :
  agree k k' ->
  forall s p,
    star_lazy (atom_ok f a) k' p
      (map (fun nv => (fst nv, upper (snd nv))) cs) (upper s)
    = option_map upper_state (star_lazy (atom_ok f a) k p cs s).
Proof.
  intros Hk. induction s as [|c s IH]; intros p;
    rewrite (star_lazy_eq _ k), orElse_map.
  - rewrite <- (Hk {| pos := p; rest := []; caps := cs |}).
    rewrite star_lazy_eq. reflexivity.
  - rewrite <- (Hk {| pos := p; rest := c :: s; caps := cs |}).
    change (upper (c :: s)) with (canonicalize c :: upper s).
    rewrite star_lazy_eq. f_equal.
    rewrite atom_ok_upper.
    destruct (atom_ok f a c); [apply IH | reflexivity].
Qed.

(** The matcher commutes with upper-casing the input. *)
Lemma m_upper (r : regex) :
  forall k k', agree k k' -> agree (m f r k) (m f r k').
Proof.
  induction r as [| |a|r1 IH1 r2 IH2|r1 IH1 r2 IH2|r IH|a|a|n r IH];
    intros k k' Hk st.
  - apply Hk.
  - cbn [m upper_state pos]. destruct (pos st =? 0); [apply Hk | reflexivity].
  - cbn [m upper_state pos rest caps]. destruct (rest st) as [|c s] eqn:Er;
      [reflexivity|].
    cbn [upper map]. rewrite atom_ok_upper.
    destruct (atom_ok f a c); [|reflexivity].
    apply (Hk {| pos := S (pos st); rest := s; caps := caps st |}).
  - cbn [m]. apply IH1. now apply IH2.
  - cbn [m]. rewrite orElse_map. now rewrite <- (IH1 _ _ Hk), <- (IH2 _ _ Hk).
  - cbn [m]. rewrite orElse_map, <- (Hk st). f_equal.
    apply IH. intros st'. cbn [upper_state pos].
    destruct (pos st' =? pos st); [reflexivity | apply Hk].
  - destruct st as [p s cs]. now apply star_greedy_upper.
  - destruct st as [p s cs]. now apply star_lazy_upper.
  - cbn [m]. apply IH. intros st'. cbn [upper_state pos rest caps].
    replace (firstn (pos st' - pos st) (upper (rest st)))
      with (upper (firstn (pos st' - pos st) (rest st)))
      by (unfold upper; symmetry; apply firstn_map).
    apply (Hk {| pos := pos st'; rest := rest st';
                 caps := (n, firstn (pos st' - pos st) (rest st))
                           :: caps st' |}).
Qed.

End IgnoreCase.

Section IgnoreCasePatterns.

Variable pt : pattern.
Hypothesis pt_case : ignoreCase (flag pt) = true.

Lemma match_at_upper (p : nat) (s : jsstring) :
  match_at pt p (upper s) = option_map upper_state (match_at pt p s).
Proof.
  unfold match_at.
  apply (m_upper (flag pt) pt_case (source pt) Some Some
           (fun st => eq_refl) {| pos := p; rest := s; caps := [] |}).
Qed.

Lemma search_upper (s : jsstring) :
  forall p, search pt p (upper s) = option_map upper_state (search pt p s).
Proof.
  induction s as [|c s IH]; intros p.
  - change (search pt p (upper []))
      with (match match_at pt p (upper []) with
            | Some e => Some e
            | None => None
            end).
    rewrite match_at_upper. cbn [search].
    now destruct (match_at pt p []).
  - change (search pt p (upper (c :: s)))
      with (match match_at pt p (upper (c :: s)) with
            | Some e => Some e
            | None => search pt (S p) (upper s)
            end).
    rewrite match_at_upper, IH. cbn [search].
    now destruct (match_at pt p (c :: s)).
Qed.

(** X17: an ignore-case pattern (the nine announcement patterns such as
    "Hier ist die Antwort ..." and "Here is the answer ...") does not see the
    case of the letters a to z: it matches a string exactly when it matches
    the string with these letters upper-cased, and the captures of the two
    matches are equal up to this upper-casing. *)
Theorem ignore_case_match (x : jsstring) :
  str_match pt (upper x) = option_map upper_state (str_match pt x).
Proof. unfold str_match. apply search_upper. Qed.

End IgnoreCasePatterns.

Lemma ignore_case_match_witness :
  str_match (si_ (preamble (rlit (js "Folgende Antwort"))))
    (upper (js "folgende antwort: ja"))
  = option_map upper_state
      (str_match (si_ (preamble (rlit (js "Folgende Antwort"))))
         (js "folgende antwort: ja")).
Proof.
  apply (ignore_case_match (si_ (preamble (rlit (js "Folgende Antwort"))))).
  reflexivity.
Defined.

Example announcement_in_lower_case :
  separateCommentAndAnswer (js "hier ist die antwort: Ja.")
  = Some {| comment := js "hier ist die antwort:"; answer := js "Ja." |}.
Proof. vm_compute. reflexivity. Qed.

(** ** Splitting the clean answer again *)

Section Lengths.

Lemma trim_length (s : jsstring) : List.length (trim s) <= List.length s.
Proof.
  destruct (trim_substring s) as [u [v H]].
  apply (f_equal (@List.length N)) in H. rewrite !length_app in H. lia.
Qed.

Lemma after_label_length (s : jsstring) :
  List.length (after_label s) <= List.length s.
Proof.
  unfold after_label.
  pose proof (trimStart_length (drop_colon (trimStart s))) as H1.
  pose proof (trimStart_length s) as H2.
  assert (H3 : List.length (drop_colon (trimStart s))
               <= List.length (trimStart s)).
  { unfold drop_colon. destruct (trimStart s) as [|c t]; [simpl; lia|].
    destruct (c =? 58)%N; simpl; lia. }
  lia.
Qed.

Lemma replace_head_length (s : jsstring) :
  List.length (replace re_head subst_empty s) <= List.length s.
Proof.
  rewrite replace_head.
  destruct (startsWith (js "**") s); [|lia].
  destruct (span (skipn 2 s)) as [[X r]|] eqn:Ex; [|lia].
  pose proof (span_length _ _ _ Ex) as H1.
  pose proof (after_label_length r) as H2.
  rewrite length_skipn in H1. lia.
Qed.

Lemma unbold_length_len (n : nat) :
  forall s p, List.length s <= n ->
  List.length (unbold p s) <= List.length s.
Proof.
  induction n as [|n IH]; intros s p Hn.
  - destruct s; [rewrite unbold_nil; simpl; lia | simpl in Hn; lia].
  - destruct (unbold_cases p s) as [-> ->|c s' -> _ ->|X r Hs Hx ->].
    + simpl. lia.
    + simpl in Hn |- *. specialize (IH s' (S p)). lia.
    + destruct (span_sound _ _ _ Hx) as [Ht _].
      apply (f_equal (@List.length N)) in Ht.
      rewrite length_skipn, !length_app in Ht. simpl in Ht.
      rewrite length_app. specialize (IH r (p + 4 + List.length X)). lia.
Qed.

(** The clean-up never lengthens the working text. *)
Lemma cleanUp_length (w : jsstring) :
  List.length (cleanUp w) <= List.length w.
Proof.
  rewrite cleanUp_unbold.
  pose proof (trim_length (unbold 0 (replace re_head subst_empty w))) as H1.
  pose proof (unbold_length_len _ (replace re_head subst_empty w) 0
                (le_n _)) as H2.
  pose proof (replace_head_length w) as H3. lia.
Qed.

Lemma trimmed_no_space_tail (g r : jsstring) :
  trim (g ++ r) = g ++ r -> forallb isSpace r = true -> r = [].
Proof.
  intros Ht Hs.
  destruct (trim_ends (g ++ r)) as [_ He]. rewrite Ht, rev_app_distr in He.
  rewrite <- forallb_rev in Hs.
  destruct (rev r) as [|c t] eqn:Er.
  - apply (f_equal (@rev N)) in Er. now rewrite rev_involutive in Er.
  - simpl in He, Hs. rewrite He in Hs. discriminate.
Qed.

End Lengths.

Section Consuming.

Variable f : flags.

(** A match of an expression that always reads input moves the index. *)
Lemma m_consumes (r : regex) :
  consuming r = true ->
  forall k st res, m f r k st = Some res ->
  exists st', k st' = Some res /\ advances st st' /\ pos st < pos st'.
Proof.
  induction r as [| |a|r1 IH1 r2 IH2|r1 IH1 r2 IH2|r IH|a|a|n r IH];
    simpl; intros Hc k st res H; try discriminate.
  - destruct (rest st) as [|c s'] eqn:Er; [discriminate|].
    destruct (atom_ok f a c); [|discriminate].
    eexists; split; [exact H|]. split; [|simpl; lia].
    exists [c]. simpl. split; [exact Er | lia].
  - apply orb_true_iff in Hc. destruct Hc as [Hc|Hc].
    + destruct (IH1 Hc _ _ _ H) as [st1 [H1 [A1 L1]]].
      destruct (m_track _ _ _ _ _ H1) as [st2 [H2 A2]].
      exists st2. split; [exact H2|].
      split; [eapply advances_trans; eauto|].
      destruct A2 as [u [_ Pu]]. lia.
    + destruct (m_track _ _ _ _ _ H) as [st1 [H1 A1]].
      destruct (IH2 Hc _ _ _ H1) as [st2 [H2 [A2 L2]]].
      exists st2. split; [exact H2|].
      split; [eapply advances_trans; eauto|].
      destruct A1 as [u [_ Pu]]. lia.
  - apply andb_prop in Hc. destruct Hc as [Hc1 Hc2].
    destruct (m f r1 k st) eqn:E; simpl in H.
    + injection H as <-. eapply IH1; eauto.
    + eapply IH2; eauto.
  - destruct (IH Hc _ _ _ H) as [st1 [H1 [A1 L1]]].
    eexists; split; [exact H1|]. split; [exact A1 | exact L1].
Qed.

Hypothesis f_dotAll : dotAll f = true.

(** A match of a commentary pattern, whatever its prefix: group 1 is a
    prefix of the input that is not empty, and group 2 is what follows it,
    without the white space in front. *)
Lemma match_at_commentary (P : regex) (a : jsstring) (e : mstate) :
  match_at {| source := preamble P; flag := f |} 0 a = Some e ->
  exists g1 r1,
    a = g1 ++ r1 /\ g1 <> []
    /\ capture 1 e = Some g1 /\ capture 2 e = Some (trimStart r1).
Proof.
  intros H. unfold match_at in H. cbn [source flag] in H.
  change (preamble P)
    with (RCat RBol
            (RCat (RGroup 1 (RCat P (RCat (RLazyStar ADot)
                               (RAlt (lit_char ".") (lit_char ":")))))
               (RCat (RStar ASpace) (RGroup 2 (RStar ADot))))) in H.
  rewrite m_cat, m_bol in H. cbn [pos Nat.eqb] in H.
  rewrite m_cat, m_group in H.
  apply m_consumes in H; [|simpl; apply orb_true_r].
  destruct H as [st1 [H1 [[u [Hu Pu]] Hlt]]].
  cbn [pos rest caps] in H1, Hu, Pu, Hlt.
  destruct (m_preamble_tail f f_dotAll (pos st1) (rest st1)
              ((1, firstn (pos st1 - 0) a) :: caps st1)) as [q' E].
  assert (He : Some e
               = Some {| pos := q'; rest := [];
                         caps := (2, trimStart (rest st1))
                                   :: (1, firstn (pos st1 - 0) a)
                                   :: caps st1 |})
    by (rewrite <- H1; exact E).
  injection He as ->.
  exists u, (rest st1). split; [exact Hu|].
  split; [intros ->; simpl in Pu; lia|].
  unfold capture. cbn [caps lookup Nat.eqb]. split; [|reflexivity].
  f_equal. replace (pos st1 - 0) with (List.length u + 0) by lia.
  rewrite Hu at 1. now rewrite firstn_app_2, app_nil_r.
Qed.

End Consuming.

Section Resplit.

Lemma library_shapes :
  Forall (fun p => commentary_shape p \/ header_shape p) commentPatterns.
Proof.
  unfold commentPatterns, commentary_shape, header_shape.
  repeat (constructor;
          [first [ left; eexists; split; reflexivity
                 | right; eexists; split;
                   [reflexivity | intros H; vm_compute in H; discriminate H] ]
          |]).
  constructor.
Qed.

Lemma on_match_working (mt : mstate) (g1 : jsstring) (cs : list jsstring) :
  capture 1 mt = Some g1 ->
  exists cs',
    on_match mt cs
    = Some (match capture 2 mt with
            | Some (c :: g2) => trim (c :: g2)
            | _ => trim g1
            end, cs').
Proof.
  intros H. unfold on_match. rewrite H.
  destruct (capture 2 mt) as [[|c g2]|]; cbn [truthy option_map];
    eexists; reflexivity.
Qed.

(** The loop either finds no match or breaks at its first match. *)
Lemma first_match_split (ps : list pattern) (x : jsstring) :
  (forall p, In p ps -> str_match p x = None)
  \/ exists p mt, first_match ps x p mt.
Proof.
  induction ps as [|q ps IH].
  - left. intros p [].
  - destruct (str_match q x) as [mt|] eqn:E.
    + right. exists q, mt, [], ps. repeat split; auto. intros q' [].
    + destruct IH as [IH|[p [mt [before [after [-> [Hb Hm]]]]]]].
      * left. intros p [<-|Hp]; auto.
      * right. exists p, mt, (q :: before), after. repeat split; auto.
        intros q' [<-|Hq']; auto.
Qed.

Lemma loop_first (ps : list pattern) (x : jsstring) (p : pattern)
    (mt : mstate) (cs : list jsstring) :
  first_match ps x p mt -> loop ps x cs = on_match mt cs.
Proof.
  intros [before [after [-> [Hb Hm]]]].
  rewrite (loop_skips x before (p :: after) cs Hb). simpl. now rewrite Hm.
Qed.

Lemma first_match_in (ps : list pattern) (x : jsstring) (p : pattern)
    (mt : mstate) :
  first_match ps x p mt -> In p ps /\ str_match p x = Some mt.
Proof.
  intros [before [after [-> [_ Hm]]]]. split; [|exact Hm].
  apply in_or_app. right. now left.
Qed.

(** The working text after a match on a trimmed string [a]: it is [a]
    itself when group 2 is empty, and shorter than [a] otherwise. *)
Lemma working_text_cases (p : pattern) (a : jsstring) (mt : mstate) :
  commentary_shape p \/ header_shape p ->
  trim a = a -> str_match p a = Some mt ->
  exists w cs,
    on_match mt [] = Some (w, cs)
    /\ ((capture 2 mt = Some [] /\ w = a)
        \/ (capture 2 mt <> Some [] /\ List.length w < List.length a)).
Proof.
  intros [[P [Hsrc Hd]]|[L [-> HL]]] Ht Hm.
  - destruct p as [src fl]. cbn [source flag] in Hsrc, Hd. subst src.
    rewrite (str_match_anchored {| source := preamble P; flag := fl |} a
               eq_refl) in Hm.
    destruct (match_at_commentary fl Hd P a mt Hm)
      as [g1 [r1 [Ha [Hg [C1 C2]]]]].
    destruct (on_match_working mt g1 [] C1) as [cs E].
    rewrite C2 in E. rewrite C2.
    destruct (trimStart r1) as [|c g2] eqn:Er.
    + exists (trim g1), cs. split; [exact E|]. left. split; [reflexivity|].
      assert (Hr : r1 = []).
      { apply (trimmed_no_space_tail g1); [now rewrite <- Ha|].
        now apply trimStart_nil_spaces. }
      subst r1. rewrite app_nil_r in Ha. now subst g1.
    + exists (trim (c :: g2)), cs. split; [exact E|]. right.
      split; [discriminate|].
      pose proof (trim_length (c :: g2)) as H1.
      pose proof (trimStart_length r1) as H2. rewrite Er in H2.
      apply (f_equal (@List.length N)) in Ha. rewrite length_app in Ha.
      assert (H3 : 0 < List.length g1)
        by (destruct g1; [congruence | simpl; lia]).
      simpl in H1, H2 |- *. lia.
  - destruct (str_match_header L a) as [q H]. rewrite Hm in H.
    destruct (startsWith L a) eqn:Es; [|discriminate].
    injection H as ->.
    destruct (on_match_working
                {| pos := q; rest := [];
                   caps := [(1, after_label (skipn (List.length L) a))] |}
                (after_label (skipn (List.length L) a)) [] eq_refl)
      as [cs E].
    exists (trim (after_label (skipn (List.length L) a))), cs.
    split; [exact E|]. right. split; [discriminate|].
    pose proof (trim_length (after_label (skipn (List.length L) a))) as H1.
    pose proof (after_label_length (skipn (List.length L) a)) as H2.
    pose proof (startsWith_skipn _ _ Es) as H3.
    apply (f_equal (@List.length N)) in H3. rewrite length_app in H3.
    assert (H4 : 0 < List.length L) by (destruct L; [congruence | simpl; lia]).
    lia.
Qed.

(** Splitting a string that the clean-up leaves as it is. *)
Lemma resplit_answer (ps : list pattern) (a : jsstring) :
  Forall (fun p => commentary_shape p \/ header_shape p) ps ->
  has_pair a = false -> trim a = a ->
  exists r2,
    separateWith ps a = Some r2
    /\ (answer r2 = a
        <-> (forall p, In p ps -> str_match p a = None)
            \/ exists p mt, first_match ps a p mt /\ capture 2 mt = Some [])
    /\ (answer r2 <> a -> List.length (answer r2) < List.length a)
    /\ ((forall p, In p ps -> str_match p a = None) -> comment r2 = js "").
Proof.
  intros Hshape Hp Ht. unfold separateWith.
  assert (Hcase : forall p mt, first_match ps a p mt ->
            exists w cs,
              loop ps a [] = Some (w, cs)
              /\ ((capture 2 mt = Some [] /\ w = a)
                  \/ (capture 2 mt <> Some []
                      /\ List.length w < List.length a))).
  { intros p mt Hf. destruct (first_match_in _ _ _ _ Hf) as [Hin Hm].
    destruct (working_text_cases p a mt
                (proj1 (Forall_forall _ _) Hshape p Hin) Ht Hm)
      as [w [cs [E Hw]]].
    exists w, cs. split; [|exact Hw]. now rewrite (loop_first _ _ _ _ _ Hf). }
  destruct (first_match_split ps a) as [Hnone|[p [mt Hf]]].
  - rewrite (loop_no_match a ps [] Hnone). eexists; split; [reflexivity|].
    cbn [answer comment]. rewrite (cleanUp_fixed a Hp Ht).
    repeat split; auto. intros H. congruence.
  - destruct (Hcase p mt Hf) as [w [cs [E [[C Hw]|[C Hw]]]]]; rewrite E.
    + subst w. eexists; split; [reflexivity|].
      cbn [answer comment]. rewrite (cleanUp_fixed a Hp Ht).
      split; [|split].
      * split; [|reflexivity]. intros _. right. now exists p, mt.
      * intros H. congruence.
      * intros Hnone. destruct (first_match_in _ _ _ _ Hf) as [Hin Hm].
        rewrite (Hnone p Hin) in Hm. discriminate.
    + eexists; split; [reflexivity|]. cbn [answer comment].
      pose proof (cleanUp_length w) as Hl.
      split; [|split].
      * split.
        -- intros H. rewrite H in Hl. lia.
        -- intros [Hnone|[p' [mt' [Hf' C']]]].
           ++ destruct (first_match_in _ _ _ _ Hf) as [Hin Hm].
              rewrite (Hnone p Hin) in Hm. discriminate.
           ++ destruct (Hcase p' mt' Hf') as [w' [cs' [E' [[_ Hw']|[N' _]]]]];
                [|congruence].
              rewrite E in E'. injection E' as Hww _.
              rewrite Hww, Hw' in Hw. lia.
      * intros _. lia.
      * intros Hnone. destruct (first_match_in _ _ _ _ Hf) as [Hin Hm].
        rewrite (Hnone p Hin) in Hm. discriminate.
Qed.

(** C3 (amended): for every input the splitter returns, and splitting the
    returned clean answer again returns too. The second split gives the
    same answer exactly when no pattern of the library matches the clean
    answer, or the first pattern that matches it does so with an empty
    second group: a commentary preamble with nothing after it, as in
    "Laut Plan.". In every other case the answer of the second split is
    strictly shorter than the clean answer. When no pattern matches the
    clean answer, the comment of the second split is empty. *)
Theorem resplit_stable (x : jsstring) :
  exists r r2,
    separateCommentAndAnswer x = Some r
    /\ separateCommentAndAnswer (answer r) = Some r2
    /\ (answer r2 = answer r
        <-> (forall p, In p commentPatterns ->
               str_match p (answer r) = None)
            \/ exists p mt,
                 first_match commentPatterns (answer r) p mt
                 /\ capture 2 mt = Some [])
    /\ (answer r2 <> answer r ->
        List.length (answer r2) < List.length (answer r))
    /\ ((forall p, In p commentPatterns -> str_match p (answer r) = None) ->
        comment r2 = js "").
Proof.
  destruct (separate_total x) as [w [cs [_ [H _]]]].
  destruct (resplit_answer commentPatterns (cleanUp w) library_shapes
              (cleanUp_no_pair w))
    as [r2 [H2 Hrest]].
  { rewrite cleanUp_unbold. apply trim_idem. }
  exists {| comment := join (js " ") cs; answer := cleanUp w |}, r2.
  split; [exact H|]. split; [exact H2|]. exact Hrest.
Qed.

(** On "Laut Plan." the third pattern matches with an empty second group,
    and the second split returns the answer again. *)
Lemma resplit_stable_witness :
  exists r2,
    separateCommentAndAnswer (js "Laut Plan.") = Some r2
    /\ answer r2 = js "Laut Plan.".
Proof.
  destruct (resplit_stable (js "Laut Plan."))
    as [r [r2 [Hr [Hr2 [Hiff _]]]]].
  vm_compute in Hr. injection Hr as <-. cbn [answer] in Hr2, Hiff.
  exists r2. split; [exact Hr2|].
  apply Hiff. right.
  exists (s_ (preamble (rlit (js "Laut")))).
  eexists. split.
  - exists (firstn 2 commentPatterns), (skipn 3 commentPatterns).
    split; [reflexivity|]. split.
    + intros q Hq.
      repeat (destruct Hq as [<-|Hq]; [vm_compute; reflexivity|]).
      destruct Hq.
    + vm_compute. reflexivity.
  - reflexivity.
Defined.

End Resplit.
